(** * ExpressAppConfig: the middleware assembler of swagger-tools-oas3

    A shallow embedding of [src/middleware/express.app.config.ts] and the
    properties of its constructor, its logger configuration, its terminal
    error handler and its accessor.

    The class is JavaScript: values are dynamically typed, objects are
    shared by reference and mutated in place, and any step may throw.  The
    embedding therefore has
    - a type of JavaScript values and the coercions the source relies on
      ([||], [!= undefined], [typeof], [parseInt], [<]);
    - a store of objects addressed by location, so that aliasing between
      the caller's options and the instance is visible;
    - a state-and-exception monad in which the methods are written. *)

From Stdlib Require Import ZArith Ascii String List Lia.
From stdpp Require Import gmap strings.

Local Open Scope string_scope.
Local Open Scope list_scope.
Local Open Scope Z_scope.

(** ** Numbers *)

(** A JavaScript number is kept as the decimal that [Number::toString]
    prints for it: [Dec m e] is the finite number [m * 10^e].  The integers
    of the safe range and the short decimals ([400.5] is [Dec 4005 (-1)])
    are exactly these decimals; any other double is taken for the shortest
    decimal that rounds to it, which is the one it prints as, and the order
    of two numbers is the order of their decimals.  Negative zero is not
    told apart from zero: the source only compares, tests truthiness and
    prints. *)
Inductive number :=
  | NaN
  | Infinity (negative : bool)
  | Dec (m : Z) (e : Z).

Definition number_of_Z (z : Z) : number := Dec z 0.

(** The relational operator [<] on two numbers; any comparison with [NaN]
    is [false]. *)
Definition number_lt (a b : number) : bool :=
  match a, b with
  | NaN, _ | _, NaN => false
  | Infinity na, Infinity nb => na && negb nb
  | Infinity na, Dec _ _ => na
  | Dec _ _, Infinity nb => negb nb
  | Dec m1 e1, Dec m2 e2 =>
      let e := Z.min e1 e2 in
      m1 * 10 ^ (e1 - e) <? m2 * 10 ^ (e2 - e)
  end.

(** *** Decimal digits *)

(** Most significant digit first. [digits_aux] peels the last digit off
    [n]; the fuel given by [digits] is the binary length of [n], which
    bounds its decimal length. *)
Fixpoint digits_aux (fuel : nat) (n : Z) (acc : list Z) : list Z :=
  match fuel with
  | O => acc
  | S fuel' =>
      if n <? 10 then n :: acc
      else digits_aux fuel' (n / 10) (n mod 10 :: acc)
  end.

Definition digits (n : Z) : list Z :=
  digits_aux (S (Z.to_nat (Z.log2 n))) n [].

Definition digit_char (d : Z) : ascii := ascii_of_N (Z.to_N (48 + d)).

Fixpoint string_of_digits (ds : list Z) : string :=
  match ds with
  | [] => EmptyString
  | d :: ds' => String (digit_char d) (string_of_digits ds')
  end.

(** Drops the trailing zeros of a positive significand, raising the
    exponent: the [k] "as small as possible" of [Number::toString]. *)
Fixpoint strip_zeros (fuel : nat) (s e : Z) : Z * Z :=
  match fuel with
  | O => (s, e)
  | S fuel' =>
      if (s mod 10 =? 0) && (0 <? s) then strip_zeros fuel' (s / 10) (e + 1)
      else (s, e)
  end.

Definition normalize (m e : Z) : Z * Z :=
  strip_zeros (S (Z.to_nat (Z.log2 (Z.abs m)))) (Z.abs m) e.

(** *** Number::toString (radix 10), ECMA-262 6.1.6.1.20 *)

Definition number_to_string (x : number) : string :=
  match x with
  | NaN => "NaN"
  | Infinity neg => if neg then "-Infinity" else "Infinity"
  | Dec m e =>
      if m =? 0 then "0"
      else
        let '(s, e') := normalize m e in
        let ds := digits s in
        let k := Z.of_nat (length ds) in
        let n := e' + k in
        let body :=
          if (k <=? n) && (n <=? 21) then
            string_of_digits (ds ++ repeat 0 (Z.to_nat (n - k)))
          else if (0 <? n) && (n <=? 21) then
            string_of_digits (take (Z.to_nat n) ds) +:+ "." +:+
            string_of_digits (drop (Z.to_nat n) ds)
          else if (-6 <? n) && (n <=? 0) then
            "0." +:+ string_of_digits (repeat 0 (Z.to_nat (- n)) ++ ds)
          else
            let ex := n - 1 in
            string_of_digits (take 1 ds) +:+
            (if k =? 1 then "" else "." +:+ string_of_digits (drop 1 ds)) +:+
            "e" +:+ (if ex <? 0 then "-" else "+") +:+
            string_of_digits (digits (Z.abs ex))
        in
        (if m <? 0 then "-" else "") +:+ body
  end.

(** *** parseInt, ECMA-262 19.2.5, called with no radix *)

(** Strings are byte strings, so the white space trimmed is the ASCII part
    of [StrWhiteSpaceChar]: TAB, LF, VT, FF, CR and SP. *)
Definition is_white_space (c : ascii) : bool :=
  let n := N_of_ascii c in
  ((9 <=? n) && (n <=? 13) || (n =? 32))%N.

Fixpoint trim_start (s : string) : string :=
  match s with
  | String c rest => if is_white_space c then trim_start rest else s
  | EmptyString => EmptyString
  end.

Definition digit_of_ascii (c : ascii) : option Z :=
  let n := Z.of_N (N_of_ascii c) in
  if (48 <=? n) && (n <=? 57) then Some (n - 48)
  else if (97 <=? n) && (n <=? 122) then Some (n - 87)
  else if (65 <=? n) && (n <=? 90) then Some (n - 55)
  else None.

Definition radix_digit (R : Z) (c : ascii) : option Z :=
  match digit_of_ascii c with
  | Some d => if d <? R then Some d else None
  | None => None
  end.

(** Reads the longest prefix of radix-[R] digits; [acc] is [None] until a
    digit has been read. *)
Fixpoint parse_digits (R : Z) (s : string) (acc : option Z) : option Z :=
  match s with
  | String c rest =>
      match radix_digit R c with
      | Some d => parse_digits R rest (Some (R * default 0 acc + d))
      | None => acc
      end
  | EmptyString => acc
  end.

Definition strip_sign (s : string) : bool * string :=
  match s with
  | String "-" rest => (true, rest)
  | String "+" rest => (false, rest)
  | _ => (false, s)
  end.

Definition strip_radix_prefix (s : string) : Z * string :=
  match s with
  | String "0" (String "x" rest) => (16, rest)
  | String "0" (String "X" rest) => (16, rest)
  | _ => (10, s)
  end.

(** The result is the mathematical integer read; the rounding of an
    integer beyond 2^53 to the nearest double is not modelled (it is
    monotone and leaves every HTTP status code fixed, so it does not change
    a comparison against one). *)
Definition parseInt_string (input : string) : number :=
  let '(neg, s1) := strip_sign (trim_start input) in
  let '(R, s2) := strip_radix_prefix s1 in
  match parse_digits R s2 None with
  | None => NaN
  | Some z => number_of_Z (if neg then - z else z)
  end.

(** The integer that a list of decimal digits denotes, continuing from
    [acc]. *)
Definition digits_value (ds : list Z) (acc : Z) : Z :=
  fold_left (λ a d, 10 * a + d) ds acc.

Definition is_digit (d : Z) : Prop := 0 ≤ d < 10.

(** The number [n] is the integer [T]. *)
Definition number_is_integer (n : number) (T : Z) : Prop :=
  match n with
  | Dec m e => if 0 <=? e then T = m * 10 ^ e else m = T * 10 ^ (- e)
  | _ => False
  end.

(** The decimal numeral of an integer, as a string. *)
Definition decimal_numeral (T : Z) : string :=
  (if T <? 0 then "-" else "") +:+ string_of_digits (digits (Z.abs T)).

(** ** Values *)

Definition loc := positive.
Bind Scope positive_scope with loc.

(** The primitive values and references to objects.  (BigInt and Symbol
    values are left out; the source has no operation on them.) *)
Inductive value :=
  | VUndefined
  | VNull
  | VBool (b : bool)
  | VNum (n : number)
  | VStr (s : string)
  | VRef (l : loc).

(** ToBoolean. *)
Definition truthy (v : value) : bool :=
  match v with
  | VUndefined | VNull => false
  | VBool b => b
  | VNum NaN => false
  | VNum (Infinity _) => true
  | VNum (Dec m _) => negb (m =? 0)
  | VStr s => negb (String.eqb s "")
  | VRef _ => true
  end.

(** [a || b] *)
Definition js_or (a b : value) : value := if truthy a then a else b.

(** [v != undefined], the loose inequality: only [undefined] and [null]
    are loosely equal to [undefined]. *)
Definition not_undefined (v : value) : bool :=
  match v with
  | VUndefined | VNull => false
  | _ => true
  end.

(** ToString.  A reference prints as an ordinary object does; a function
    prints its source text; neither string starts with a digit. *)
Definition to_string (v : value) : string :=
  match v with
  | VUndefined => "undefined"
  | VNull => "null"
  | VBool b => if b then "true" else "false"
  | VNum n => number_to_string n
  | VStr s => s
  | VRef _ => "[object Object]"
  end.

(** [parseInt(v)]: the argument is converted to a string first. *)
Definition parseInt (v : value) : number := parseInt_string (to_string v).

(** ** Middleware *)

(** A request handler supplied by the caller, known by its identity. *)
Inductive handler := Handler (id : nat).

(** The function that the logger is given as its [skip] option.  It closes
    over the [loggerOptions] parameter of [configureLogger], not over the
    value of its [errorLimit] field. *)
Inductive closure := SkipBelowErrorLimit (loggerOptions : value).

(** What is thrown: a [TypeError] of the language, the error of
    [fs.readFileSync], the error of [jsyaml.load], or any other error, by
    its message. *)
Inductive exn := TypeError | IOError | YAMLException | Error (message : string).

(** ** An example world *)

(** A file system with a definition file that parses, one that does not,
    and nothing else; the parser keeps a document as its text. *)
Definition example_fs (path : string) : option string :=
  if String.eqb path "api.yaml" then Some "openapi: 3.0.0"
  else if String.eqb path "broken.yaml" then Some "paths: ["
  else None.

Definition example_load (text : string) : option string :=
  if String.eqb text "paths: [" then None else Some text.

(** A file system with two definition files that parse. *)
Definition example_fs_versions (path : string) : option string :=
  if String.eqb path "v1.yaml" then Some "openapi: 3.0.0"
  else if String.eqb path "v2.yaml" then Some "openapi: 3.1.0"
  else None.

Section ExpressAppConfig.

(** The document that [jsyaml.load] builds, the file system that
    [fs.readFileSync] reads ([None]: the read throws) and the YAML parser
    ([None]: the parser throws). *)
Variable document : Type.
Variable fs_readFileSync : string → option string.
Variable jsyaml_load : string → option document.

(** The collaborators (cors, body-parser, morgan, express, cookie-parser,
    SwaggerUI, express-openapi-validator, SwaggerParameters, SwaggerRouter)
    are black boxes: a middleware is the call that made it, with the
    arguments the constructor passed.  What the three calls that are
    handed objects of the caller do besides is an [effect], below. *)
Inductive middleware :=
  | Cors (options : value)
  | BodyParserUrlencoded (limit : value)
  | BodyParserText (limit : value)
  | BodyParserJson (limit : value)
  | BodyParserRaw (type : string) (limit : value)
  | Morgan (format : value) (skip : option closure)
  | ExpressJson (type : string)
  | ExpressUrlencoded (extended : bool)
  | CookieParser
  | SwaggerUIStatic (swaggerDoc : document) (options : value)
  | OpenApiValidatorMiddleware (options : value)
  | CheckParameters
  | Custom (h : handler)
  | SwaggerRouterInitialize (routingOptions : value)
  | ErrorHandler.

(** ** The object store *)

(** An object is its properties, as a property read sees them; an express
    application handle has in addition its middleware chain, in
    registration order. *)
Record object := Object {
  props : gmap string value;
  stack : option (list middleware)
}.

Definition typeof (h : gmap loc object) (v : value) : string :=
  match v with
  | VUndefined => "undefined"
  | VNull => "object"
  | VBool _ => "boolean"
  | VNum _ => "number"
  | VStr _ => "string"
  | VRef l =>
      match h !! l with
      | Some (Object _ (Some _)) => "function"
      | _ => "object"
      end
  end.

(** [v.k].  Reading a property of [undefined] or [null] throws; a primitive
    has none of the properties the source reads. *)
Definition read_prop (h : gmap loc object) (v : value) (k : string)
  : exn + value :=
  match v with
  | VUndefined | VNull => inl TypeError
  | VRef l =>
      match h !! l with
      | Some o => inr (default VUndefined (props o !! k))
      | None => inl TypeError
      end
  | _ => inr VUndefined
  end.

(** The fields of an instance. *)
Record ExpressAppConfig := {
  app : value;
  routingOptions : value;
  parserLimit : value;
  definitionPath : value;
  openApiValidatorOptions : value
}.

Definition uninitialized : ExpressAppConfig :=
  {| app := VUndefined; routingOptions := VUndefined;
     parserLimit := VUndefined; definitionPath := VUndefined;
     openApiValidatorOptions := VUndefined |}.

Record state := State {
  heap : gmap loc object;
  this : ExpressAppConfig
}.

(** ** The monad of methods: state and exceptions *)

Definition M (A : Type) : Type := state → state * (exn + A).

#[global] Instance M_ret : MRet M := λ A (a : A) st, (st, inr a).
#[global] Instance M_bind : MBind M := λ A B (f : A → M B) (m : M A) st,
  match m st with
  | (st', inr a) => f a st'
  | (st', inl e) => (st', inl e)
  end.

Definition throw {A} (e : exn) : M A := λ st, (st, inl e).
Definition get_heap : M (gmap loc object) := λ st, (st, inr (heap st)).
Definition put_heap (h : gmap loc object) : M unit :=
  λ st, (State h (this st), inr tt).
Definition get_this : M ExpressAppConfig := λ st, (st, inr (this st)).
Definition put_this (t : ExpressAppConfig) : M unit :=
  λ st, (State (heap st) t, inr tt).
Definition lift {A} (r : exn + A) : M A := λ st, (st, r).

Definition get_prop (v : value) (k : string) : M value :=
  h ← get_heap; lift (read_prop h v k).

(** ** Collaborators that are handed the caller's objects *)

(** [new SwaggerUI(swaggerDoc, options)], [OpenApiValidator.middleware(options)]
    and [new SwaggerRouter().initialize(options)] are handed option objects
    of the caller, and their code is not part of the class.  Such a call
    may complete the objects it can reach with defaults, in place, may
    create objects, and may throw.  An [effect] is what one call does:
    [written] has, for every object the call wrote to or created, the
    properties of that object after the call, and [thrown] the exception
    it ends with, if any.  A call cannot take an object away, and it does
    not register on an application: it is not handed one, and the chain of
    an application changes through [use] only. *)
Record effect := Effect {
  written : gmap loc (gmap string value);
  thrown : option exn
}.

(** The three collaborators, each from its arguments and the store in
    which it is called. *)
Variable new_SwaggerUI : document → value → gmap loc object → effect.
Variable OpenApiValidator_middleware : value → gmap loc object → effect.
Variable SwaggerRouter_initialize : value → gmap loc object → effect.

(** The store after the writes [w]: an object written to has its new
    properties and the chain it had; an object created has no chain. *)
Definition write_props (h : gmap loc object) (w : gmap loc (gmap string value))
  : gmap loc object :=
  merge (λ o ps,
           match o, ps with
           | Some o, Some ps => Some (Object ps (stack o))
           | Some o, None => Some o
           | None, Some ps => Some (Object ps None)
           | None, None => None
           end) h w.

(** A call of a collaborator [c]: its writes happen, then it returns or
    throws. *)
Definition call (c : gmap loc object → effect) : M unit :=
  h ← get_heap;
  put_heap (write_props h (written (c h)));;
  match thrown (c h) with
  | Some e => throw e
  | None => mret tt
  end.

(** [v.k = x] in strict mode: assigning to a property of a primitive
    throws. *)
Definition set_prop (v : value) (k : string) (x : value) : M unit :=
  h ← get_heap;
  match v with
  | VRef l =>
      match h !! l with
      | Some o => put_heap (<[l := Object (<[k := x]> (props o)) (stack o)]> h)
      | None => throw TypeError
      end
  | _ => throw TypeError
  end.

(** A new object at a location not in use. *)
Definition alloc (o : object) : M value :=
  h ← get_heap;
  let l := fresh (dom h) in
  put_heap (<[l := o]> h);; mret (VRef l).

(** [express()]: a new application with an empty chain (the chain holds
    what has been given to [use]; the layers that express adds of itself
    are not in it). *)
Definition express : M value := alloc (Object ∅ (Some [])).

(** [a.use(mw)]: appends to the chain of the application [a]. *)
Definition app_use (a : value) (mw : middleware) : M unit :=
  h ← get_heap;
  match a with
  | VRef l =>
      match h !! l with
      | Some (Object ps (Some chain)) =>
          put_heap (<[l := Object ps (Some (chain ++ [mw]))]> h)
      | _ => throw TypeError
      end
  | _ => throw TypeError
  end.

Definition readFileSync (path : string) : M string :=
  match fs_readFileSync path with
  | Some text => mret text
  | None => throw IOError
  end.

Definition load (text : string) : M document :=
  match jsyaml_load text with
  | Some doc => mret doc
  | None => throw YAMLException
  end.

Fixpoint forEach {A} (l : list A) (f : A → M unit) : M unit :=
  match l with
  | [] => mret tt
  | x :: l' => f x;; forEach l' f
  end.

(** ** The class *)

Definition set_app (v : value) : M unit :=
  t ← get_this;
  put_this {| app := v; routingOptions := routingOptions t;
              parserLimit := parserLimit t; definitionPath := definitionPath t;
              openApiValidatorOptions := openApiValidatorOptions t |}.

Definition set_routingOptions (v : value) : M unit :=
  t ← get_this;
  put_this {| app := app t; routingOptions := v;
              parserLimit := parserLimit t; definitionPath := definitionPath t;
              openApiValidatorOptions := openApiValidatorOptions t |}.

Definition set_parserLimit (v : value) : M unit :=
  t ← get_this;
  put_this {| app := app t; routingOptions := routingOptions t;
              parserLimit := v; definitionPath := definitionPath t;
              openApiValidatorOptions := openApiValidatorOptions t |}.

Definition set_definitionPath (v : value) : M unit :=
  t ← get_this;
  put_this {| app := app t; routingOptions := routingOptions t;
              parserLimit := parserLimit t; definitionPath := v;
              openApiValidatorOptions := openApiValidatorOptions t |}.

Definition set_openApiValidatorOptions (v : value) : M unit :=
  t ← get_this;
  put_this {| app := app t; routingOptions := routingOptions t;
              parserLimit := parserLimit t; definitionPath := definitionPath t;
              openApiValidatorOptions := v |}.

(** [setOpenApiValidatorOptions], lines 67-79. *)
Definition setOpenApiValidatorOptions
    (definitionPath : string) (appOptions : value) : M unit :=
  absent ←
    (if negb (truthy appOptions) then mret true
     else v ← get_prop appOptions "openApiValidator"; mret (negb (truthy v)));
  if absent : bool then
    o ← alloc (Object {[ "apiSpec" := VStr definitionPath ]} None);
    set_openApiValidatorOptions o
  else
    v ← get_prop appOptions "openApiValidator";
    set_openApiValidatorOptions v;;
    t ← get_this;
    set_prop (openApiValidatorOptions t) "apiSpec" (VStr definitionPath).

(** [configureLogger], lines 81-98.  The result is the call
    [logger(format, options)]; [options] has a [skip] entry or is empty. *)
Definition configureLogger (loggerOptions : value) : M middleware :=
  h ← get_heap;
  if not_undefined loggerOptions then
    f ← get_prop loggerOptions "format";
    let format :=
      if not_undefined f && String.eqb (typeof h f) "string" then f
      else VStr "dev" in
    el ← get_prop loggerOptions "errorLimit";
    let skip :=
      if not_undefined el &&
         (String.eqb (typeof h el) "string" || String.eqb (typeof h el) "number")
      then Some (SkipBelowErrorLimit loggerOptions)
      else None in
    mret (Morgan format skip)
  else mret (Morgan (VStr "dev") None).

(** A response, as far as the logger looks at it. *)
Record response := { statusCode : Z }.

(** The body of the skip function, line 93, run in the store of the time
    of the request. *)
Definition call_skip (h : gmap loc object) (c : closure) (res : response)
  : exn + bool :=
  match c with
  | SkipBelowErrorLimit loggerOptions =>
      match read_prop h loggerOptions "errorLimit" with
      | inr el => inr (number_lt (number_of_Z (statusCode res)) (parseInt el))
      | inl e => inl e
      end
  end.

(** What morgan does with its [skip] option: a response is logged unless a
    skip function is there and returns true for it. *)
Definition logs (h : gmap loc object) (mw : middleware) (res : response)
  : exn + bool :=
  match mw with
  | Morgan _ (Some c) =>
      match call_skip h c res with
      | inr b => inr (negb b)
      | inl e => inl e
      end
  | _ => inr true
  end.

(** What the error handler sends: the argument of [response.status] and the
    object literal given to [json], field by field. *)
Record sent := {
  sent_status : value;
  sent_json : list (string * value)
}.

(** [errorHandler], lines 100-105. *)
Definition errorHandler (error : value) : M sent :=
  s ← get_prop error "status";
  m ← get_prop error "message";
  e ← get_prop error "errors";
  mret {| sent_status := js_or s (VNum (number_of_Z 500));
          sent_json := [("message", m); ("errors", e)] |}.

(** [this.app.use(mw)] *)
Definition use (mw : middleware) : M unit :=
  t ← get_this; app_use (app t) mw.

(** The constructor, lines 31-65.  [customMiddlewares] and
    [jsonExpressType] are optional parameters.  On lines 55, 58 and 62 the
    collaborator is called first, as the argument of [use] is evaluated
    before [use] runs. *)
Definition constructor (definitionPath : string) (appOptions : value)
    (customMiddlewares : option (list handler))
    (jsonExpressType : option string) : M unit :=
  let jsonExpressType := default "application/json" jsonExpressType in
  set_definitionPath (VStr definitionPath);;
  routing ← get_prop appOptions "routing";
  set_routingOptions routing;;
  limit ← get_prop appOptions "parserLimit";
  set_parserLimit (js_or limit (VStr "100kb"));;
  setOpenApiValidatorOptions definitionPath appOptions;;
  given ← get_prop appOptions "app";
  a ← (if truthy given then mret given else express);
  set_app a;;
  corsOptions ← get_prop appOptions "cors";
  use (Cors corsOptions);;
  spec ← readFileSync definitionPath;
  swaggerDoc ← load spec;
  t ← get_this; use (BodyParserUrlencoded (parserLimit t));;
  t ← get_this; use (BodyParserText (parserLimit t));;
  t ← get_this; use (BodyParserJson (parserLimit t));;
  t ← get_this; use (BodyParserRaw "application/pdf" (parserLimit t));;
  logging ← get_prop appOptions "logging";
  logger ← configureLogger logging;
  use logger;;
  use (ExpressJson jsonExpressType);;
  use (ExpressUrlencoded false);;
  use CookieParser;;
  uiOptions ← get_prop appOptions "swaggerUI";
  call (new_SwaggerUI swaggerDoc uiOptions);;
  use (SwaggerUIStatic swaggerDoc uiOptions);;
  t ← get_this; call (OpenApiValidator_middleware (openApiValidatorOptions t));;
  use (OpenApiValidatorMiddleware (openApiValidatorOptions t));;
  use CheckParameters;;
  forEach (default [] customMiddlewares) (λ middleware, use (Custom middleware));;
  t ← get_this; call (SwaggerRouter_initialize (routingOptions t));;
  use (SwaggerRouterInitialize (routingOptions t));;
  use ErrorHandler.

(** [new ExpressAppConfig(...)] in the store [h]: the store afterwards, and
    the instance or the exception thrown. *)
Definition new_ExpressAppConfig (definitionPath : string) (appOptions : value)
    (customMiddlewares : option (list handler))
    (jsonExpressType : option string) (h : gmap loc object)
  : gmap loc object * (exn + ExpressAppConfig) :=
  match constructor definitionPath appOptions customMiddlewares jsonExpressType
          (State h uninitialized) with
  | (st, inr _) => (heap st, inr (this st))
  | (st, inl e) => (heap st, inl e)
  end.

(** [getApp], lines 107-109. *)
Definition getApp : M value :=
  t ← get_this; mret (app t).

(** The chain of the application [a] in the store [h]. *)
Definition chain_of (h : gmap loc object) (a : value) : option (list middleware) :=
  match a with
  | VRef l => match h !! l with Some o => stack o | None => None end
  | _ => None
  end.

(** ** Definitions used in the statements *)

(** The threshold that [parseInt] takes from an [errorLimit]: an integer
    number below 10^21 in size (which prints without an exponent), or a
    string whose leading integer is [T]. *)
Definition reads_as_threshold (errorLimit : value) (T : Z) : Prop :=
  match errorLimit with
  | VNum n => number_is_integer n T ∧ Z.abs T < 10 ^ 21
  | VStr s => parseInt_string s = number_of_Z T
  | _ => False
  end.


(** The middleware that a successful construction registers, in
    registration order. *)
Definition pipeline (corsOptions limit : value) (logger : middleware)
    (jsonType : string) (swaggerDoc : document)
    (uiOptions validatorOptions : value) (customMiddlewares : list handler)
    (routing : value) : list middleware :=
  [ Cors corsOptions;
    BodyParserUrlencoded limit; BodyParserText limit; BodyParserJson limit;
    BodyParserRaw "application/pdf" limit;
    logger;
    ExpressJson jsonType; ExpressUrlencoded false; CookieParser;
    SwaggerUIStatic swaggerDoc uiOptions;
    OpenApiValidatorMiddleware validatorOptions;
    CheckParameters ] ++
  map Custom customMiddlewares ++
  [ SwaggerRouterInitialize routing; ErrorHandler ].

(** The middleware registered before the documentation UI is made. *)
Definition opening (corsOptions limit : value) (logger : middleware)
    (jsonType : string) : list middleware :=
  [ Cors corsOptions;
    BodyParserUrlencoded limit; BodyParserText limit; BodyParserJson limit;
    BodyParserRaw "application/pdf" limit;
    logger;
    ExpressJson jsonType; ExpressUrlencoded false; CookieParser ].

(** The store [h] after [mws] have been registered on the application
    [l], in this order. *)
Definition register (l : loc) (mws : list middleware) (h : gmap loc object)
  : gmap loc object :=
  alter (λ o, Object (props o) ((λ chain, chain ++ mws) <$> stack o)) l h.

(** What lines 55-64 do to the store [h3], for the instance fields [t]
    and the application [l] of the instance: each collaborator is called in
    the store that the steps before it have left; when it throws, nothing
    more is registered. *)
Definition complete (swaggerDoc : document) (uiOptions : value)
    (customMiddlewares : list handler) (t : ExpressAppConfig) (l : loc)
    (h3 : gmap loc object) : gmap loc object * (exn + unit) :=
  let ui := new_SwaggerUI swaggerDoc uiOptions h3 in
  let h4 := write_props h3 (written ui) in
  match thrown ui with
  | Some e => (h4, inl e)
  | None =>
      let h5 := register l [SwaggerUIStatic swaggerDoc uiOptions] h4 in
      let validator :=
        OpenApiValidator_middleware (openApiValidatorOptions t) h5 in
      let h6 := write_props h5 (written validator) in
      match thrown validator with
      | Some e => (h6, inl e)
      | None =>
          let h7 :=
            register l
              ([ OpenApiValidatorMiddleware (openApiValidatorOptions t);
                 CheckParameters ] ++ map Custom customMiddlewares) h6 in
          let router := SwaggerRouter_initialize (routingOptions t) h7 in
          let h8 := write_props h7 (written router) in
          match thrown router with
          | Some e => (h8, inl e)
          | None =>
              (register l
                 [ SwaggerRouterInitialize (routingOptions t); ErrorHandler ]
                 h8,
               inr tt)
          end
      end
  end.

(** The call [c] leaves the property [k] of [v] as it reads, in whatever
    store it is made. *)
Definition leaves (c : gmap loc object → effect) (v : value) (k : string)
  : Prop :=
  ∀ h x, read_prop h v k = inr x →
         read_prop (write_props h (written (c h))) v k = inr x.

(** The validator options that lines 67-79 give the instance, for the
    value [validator] of [appOptions.openApiValidator] in the store [h]. *)
Definition validator_options_for (h : gmap loc object) (validator : value)
  : value :=
  if truthy validator then validator else VRef (fresh (dom h)).

(** The three collaborators, called with what the options [appOptions]
    give them in the store [h], leave the property [k] of [v] as it
    reads. *)
Definition collaborators_leave (h : gmap loc object) (appOptions : value)
    (v : value) (k : string) : Prop :=
  ∀ uiOptions validator routing,
    read_prop h appOptions "swaggerUI" = inr uiOptions →
    read_prop h appOptions "openApiValidator" = inr validator →
    read_prop h appOptions "routing" = inr routing →
    (∀ swaggerDoc, leaves (new_SwaggerUI swaggerDoc uiOptions) v k) ∧
    leaves (OpenApiValidator_middleware (validator_options_for h validator))
      v k ∧
    leaves (SwaggerRouter_initialize routing) v k.

(** The call [c] returns, in whatever store it is made. *)
Definition returns (c : gmap loc object → effect) : Prop :=
  ∀ h, thrown (c h) = None.

(** The object that a value refers to. *)
Definition object_at (h : gmap loc object) (v : value) : option object :=
  match v with
  | VRef l => h !! l
  | _ => None
  end.

(** What lines 67-79 do to the store [h]: the store afterwards and the
    validator options of the instance. *)
Inductive validator_options_set (path : string) (appOptions : value)
    (h : gmap loc object) : gmap loc object → value → Prop :=
  | validator_options_created v :
      (if truthy appOptions then read_prop h appOptions "openApiValidator"
       else inr VUndefined) = inr v →
      truthy v = false →
      validator_options_set path appOptions h
        (<[fresh (dom h) := Object {[ "apiSpec" := VStr path ]} None]> h)
        (VRef (fresh (dom h)))
  | validator_options_given l o :
      truthy appOptions = true →
      read_prop h appOptions "openApiValidator" = inr (VRef l) →
      h !! l = Some o →
      validator_options_set path appOptions h
        (<[l := Object (<["apiSpec" := VStr path]> (props o)) (stack o)]> h)
        (VRef l).

(** What line 38 does to the store [h1]: the store afterwards and the
    application handle of the instance. *)
Inductive application_obtained (appOptions : value) (h1 : gmap loc object)
    : gmap loc object → value → Prop :=
  | application_given given :
      read_prop h1 appOptions "app" = inr given →
      truthy given = true →
      application_obtained appOptions h1 h1 given
  | application_created given :
      read_prop h1 appOptions "app" = inr given →
      truthy given = false →
      application_obtained appOptions h1
        (<[fresh (dom h1) := Object ∅ (Some [])]> h1)
        (VRef (fresh (dom h1))).

(** The constructor throws before line 38: the options are [undefined] or
    [null], or the validator options are not an object. *)
Definition fails_early (appOptions : value) (h : gmap loc object) : Prop :=
  read_prop h appOptions "routing" = inl TypeError ∨
  ∃ v, read_prop h appOptions "openApiValidator" = inr v ∧
       truthy v = true ∧ object_at h v = None.

(** What lines 40-64 do to the store [h2], for the instance fields [t]:
    the store afterwards and the result. *)
Inductive registration (path : string) (appOptions : value)
    (customMiddlewares : option (list handler)) (jsonExpressType : option string)
    (h2 : gmap loc object) (t : ExpressAppConfig)
    : gmap loc object → exn + unit → Prop :=
  | not_an_application :
      chain_of h2 (app t) = None →
      registration path appOptions customMiddlewares jsonExpressType h2 t
        h2 (inl TypeError)
  | file_unreadable l ps c corsOptions :
      app t = VRef l →
      h2 !! l = Some (Object ps (Some c)) →
      read_prop h2 appOptions "cors" = inr corsOptions →
      fs_readFileSync path = None →
      registration path appOptions customMiddlewares jsonExpressType h2 t
        (<[l := Object ps (Some (c ++ [Cors corsOptions]))]> h2) (inl IOError)
  | file_malformed l ps c corsOptions text :
      app t = VRef l →
      h2 !! l = Some (Object ps (Some c)) →
      read_prop h2 appOptions "cors" = inr corsOptions →
      fs_readFileSync path = Some text →
      jsyaml_load text = None →
      registration path appOptions customMiddlewares jsonExpressType h2 t
        (<[l := Object ps (Some (c ++ [Cors corsOptions]))]> h2)
        (inl YAMLException)
  | logger_failed l ps c corsOptions text swaggerDoc logging e :
      app t = VRef l →
      h2 !! l = Some (Object ps (Some c)) →
      read_prop h2 appOptions "cors" = inr corsOptions →
      fs_readFileSync path = Some text →
      jsyaml_load text = Some swaggerDoc →
      read_prop h2 appOptions "logging" = inr logging →
      (configureLogger logging (State h2 t)).2 = inl e →
      registration path appOptions customMiddlewares jsonExpressType h2 t
        (<[l := Object ps (Some (c ++
            [ Cors corsOptions;
              BodyParserUrlencoded (parserLimit t);
              BodyParserText (parserLimit t);
              BodyParserJson (parserLimit t);
              BodyParserRaw "application/pdf" (parserLimit t) ]))]> h2)
        (inl e)
  | collaborators_called
      l ps c corsOptions text swaggerDoc logging logger uiOptions h' r :
      app t = VRef l →
      h2 !! l = Some (Object ps (Some c)) →
      read_prop h2 appOptions "cors" = inr corsOptions →
      fs_readFileSync path = Some text →
      jsyaml_load text = Some swaggerDoc →
      read_prop h2 appOptions "logging" = inr logging →
      (configureLogger logging (State h2 t)).2 = inr logger →
      read_prop h2 appOptions "swaggerUI" = inr uiOptions →
      complete swaggerDoc uiOptions (default [] customMiddlewares) t l
        (<[l := Object ps (Some (c ++
            opening corsOptions (parserLimit t) logger
              (default "application/json" jsonExpressType)))]> h2) = (h', r) →
      registration path appOptions customMiddlewares jsonExpressType h2 t h' r.

(** *** The claims that fail, as they are stated *)

(** C2 as stated: the skip function skips exactly the responses whose
    status code is below the threshold [T] that [errorLimit] gives. *)
Definition skips_exactly_below (h : gmap loc object) (loggerOptions : value)
    (T : number) : Prop :=
  ∀ res,
    call_skip h (SkipBelowErrorLimit loggerOptions) res =
    inr (number_lt (number_of_Z (statusCode res)) T).

(** C3 as stated: the status sent is the [status] field of the failure
    whenever the failure has one. *)
Definition sends_status_field (st : state) (error : value) : Prop :=
  ∀ s reply,
    read_prop (heap st) error "status" = inr s → s ≠ VUndefined →
    (errorHandler error st).2 = inr reply →
    sent_status reply = s.

(** C4 as stated: when construction throws, the chain of every application
    that the caller had is as it was. *)
Definition chains_unchanged_on_error (path : string) (appOptions : value)
    (customMiddlewares : option (list handler)) (jsonExpressType : option string)
    (h : gmap loc object) : Prop :=
  ∀ h' e a chain,
    new_ExpressAppConfig path appOptions customMiddlewares jsonExpressType h =
      (h', inl e) →
    chain_of h a = Some chain →
    chain_of h' a = Some chain.

(** *** An example store *)

(** The caller's objects: an options bundle (1) with validator options (2),
    an application that already has a middleware (3) and logging options
    (4); two failures (5, 6); two more logging options (7, 8); an options
    bundle with nothing in it (9). *)
Definition example_store : gmap loc object :=
  {[ 1%positive := Object {[ "openApiValidator" := VRef 2;
                             "app" := VRef 3;
                             "logging" := VRef 4;
                             "routing" := VStr "controllers" ]} None;
     2%positive := Object {[ "validateRequests" := VBool true;
                             "apiSpec" := VStr "old.yaml" ]} None;
     3%positive := Object ∅ (Some [CookieParser]);
     4%positive := Object {[ "format" := VStr "combined";
                             "errorLimit" := VNum (number_of_Z 400) ]} None;
     5%positive := Object {[ "status" := VNum (number_of_Z 404);
                             "message" := VStr "not found" ]} None;
     6%positive := Object {[ "status" := VNum (number_of_Z 0);
                             "message" := VStr "offline" ]} None;
     7%positive := Object {[ "errorLimit" := VNum (Dec 4005 (-1)) ]} None;
     8%positive := Object {[ "errorLimit" := VStr "none" ]} None;
     9%positive := Object ∅ None ]}.

(** The example store with two more options bundles: one with a parser
    limit and the application 3 (10), one whose validator options are no
    object (11). *)
Definition example_store_more : gmap loc object :=
  <[10%positive := Object {[ "parserLimit" := VStr "5mb"; "app" := VRef 3 ]} None]>
    (<[11%positive := Object {[ "openApiValidator" := VBool true ]} None]>
       example_store).

(** *** Example collaborators *)

(** A collaborator that completes the options object it is handed with
    [defaults], in place: a default fills a property that is not there.
    It refuses options that are a number or a boolean. *)
Definition completing (defaults : gmap string value) (options : value)
    (h : gmap loc object) : effect :=
  match options with
  | VRef l =>
      match h !! l with
      | Some o => Effect {[ l := props o ∪ defaults ]} None
      | None => Effect ∅ None
      end
  | VNum _ | VBool _ => Effect ∅ (Some (Error "options"))
  | _ => Effect ∅ None
  end.

Definition example_ui (swaggerDoc : document)
  : value → gmap loc object → effect :=
  completing {[ "apiDocs" := VStr "/api-docs"; "swaggerUi" := VStr "/docs" ]}.

Definition example_router : value → gmap loc object → effect :=
  completing {[ "controllers" := VStr "./controllers";
                "useStubs" := VBool false ]}.

(** A validator that normalises its options in place: [validateRequests]
    becomes an object of its own, new in the store, and
    [validateResponses] is filled in.  It refuses options that are no
    object. *)
Definition example_validator (options : value) (h : gmap loc object)
  : effect :=
  match options with
  | VRef l =>
      match h !! l with
      | Some o =>
          let n := fresh (dom h) in
          Effect {[ l := <["validateRequests" := VRef n]>
                           (props o ∪ {[ "validateResponses" := VBool false ]});
                    n := {[ "allowUnknownQueryParameters" := VBool false ]} ]}
                 None
      | None => Effect ∅ None
      end
  | _ => Effect ∅ (Some (Error "options"))
  end.

(** The example store with an options bundle (12) that carries objects
    for the documentation UI (13) and the router (14), and the logging
    options 4. *)
Definition example_store_options : gmap loc object :=
  <[12%positive := Object {[ "swaggerUI" := VRef 13; "routing" := VRef 14;
                             "logging" := VRef 4 ]} None]>
    (<[13%positive := Object {[ "swaggerUi" := VStr "/ui" ]} None]>
       (<[14%positive := Object ∅ None]> example_store_more)).

(** ** Decimal digits and [parseInt] *)

Lemma digits_aux_value fuel : ∀ n acc,
  0 ≤ n < 10 ^ Z.of_nat fuel →
  digits_value (digits_aux fuel n acc) 0 = digits_value acc n.
Proof.
  induction fuel as [|fuel IH]; intros n acc Hn.
  - simpl in *. replace n with 0 by lia. reflexivity.
  - simpl. destruct (Z.ltb_spec n 10) as [Hlt|Hge].
    + simpl. reflexivity.
    + rewrite IH.
      * simpl. f_equal. pose proof (Z.div_mod n 10). lia.
      * rewrite Nat2Z.inj_succ, Z.pow_succ_r in Hn by lia.
        split; [apply Z.div_pos; lia | apply Z.div_lt_upper_bound; lia].
Qed.

Lemma digits_aux_is_digit fuel : ∀ n acc,
  0 ≤ n → Forall is_digit acc → Forall is_digit (digits_aux fuel n acc).
Proof.
  induction fuel as [|fuel IH]; intros n acc Hn Hacc; simpl; [done|].
  destruct (Z.ltb_spec n 10).
  - constructor; [split; lia | done].
  - apply IH; [apply Z.div_pos; lia|].
    constructor; [apply Z.mod_pos_bound; lia | done].
Qed.

Lemma digits_aux_length fuel : ∀ n acc,
  0 < n →
  (length acc < length (digits_aux (S fuel) n acc))%nat ∧
  10 ^ (Z.of_nat (length (digits_aux (S fuel) n acc)) - Z.of_nat (length acc) - 1) ≤ n.
Proof.
  induction fuel as [|fuel IH]; intros n acc Hn.
  - cbn [digits_aux]. destruct (Z.ltb_spec n 10); cbn [length].
    + split; [lia|]. replace (_ - _ - 1) with 0 by lia. simpl. lia.
    + split; [lia|]. replace (_ - _ - 1) with 0 by lia. simpl. lia.
  - change (digits_aux (S (S fuel)) n acc) with
      (if n <? 10 then n :: acc else digits_aux (S fuel) (n / 10) (n mod 10 :: acc)).
    destruct (Z.ltb_spec n 10) as [Hlt|Hge].
    + cbn [length]. split; [lia|]. replace (_ - _ - 1) with 0 by lia. simpl. lia.
    + assert (0 < n / 10) as Hq by (apply Z.div_str_pos; lia).
      destruct (IH (n / 10) (n mod 10 :: acc) Hq) as [Hlen Hpow].
      cbn [length] in Hlen, Hpow. split; [lia|].
      set (L := length (digits_aux (S fuel) (n / 10) (n mod 10 :: acc))) in *.
      replace (Z.of_nat L - Z.of_nat (length acc) - 1)
        with (Z.succ (Z.of_nat L - Z.of_nat (S (length acc)) - 1)) by lia.
      rewrite Z.pow_succ_r by lia.
      pose proof (Z.mul_div_le n 10). lia.
Qed.

Lemma digits_aux_nonempty fuel : ∀ n acc,
  acc ≠ [] → digits_aux fuel n acc ≠ [].
Proof.
  induction fuel as [|fuel IH]; intros n acc Hacc; simpl; [done|].
  destruct (n <? 10); [done | by apply IH].
Qed.

Lemma digits_nonempty n : digits n ≠ [].
Proof.
  unfold digits. simpl. destruct (n <? 10); [done|].
  by apply digits_aux_nonempty.
Qed.

Lemma log2_fuel n : 0 ≤ n → n < 10 ^ Z.of_nat (S (Z.to_nat (Z.log2 n))).
Proof.
  intros Hn. destruct (Z.eq_dec n 0) as [->|Hne]; [reflexivity|].
  pose proof (Z.log2_nonneg n) as Hl.
  assert (n < 2 ^ Z.succ (Z.log2 n)) as H2 by (apply Z.log2_spec; lia).
  rewrite Nat2Z.inj_succ, Z2Nat.id by lia.
  eapply Z.lt_le_trans; [exact H2|].
  apply Z.pow_le_mono_l. lia.
Qed.

Lemma digits_value_of n : 0 ≤ n → digits_value (digits n) 0 = n.
Proof.
  intros Hn. unfold digits. rewrite digits_aux_value; [reflexivity|].
  split; [done | by apply log2_fuel].
Qed.

Lemma digits_is_digit n : 0 ≤ n → Forall is_digit (digits n).
Proof. intros Hn. apply digits_aux_is_digit; [done | constructor]. Qed.

Lemma digits_length n :
  0 < n → (0 < length (digits n))%nat ∧ 10 ^ (Z.of_nat (length (digits n)) - 1) ≤ n.
Proof.
  intros Hn. unfold digits.
  destruct (digits_aux_length (Z.to_nat (Z.log2 n)) n [] Hn) as [H1 H2].
  cbn [length] in *. split; [lia|].
  change (Z.of_nat 0) with 0 in H2. by rewrite Z.sub_0_r in H2.
Qed.

Lemma strip_zeros_spec fuel : ∀ s e s' e',
  0 < s < 10 ^ Z.of_nat fuel →
  strip_zeros fuel s e = (s', e') →
  0 < s' ∧ e ≤ e' ∧ s = s' * 10 ^ (e' - e) ∧ s' mod 10 ≠ 0.
Proof.
  induction fuel as [|fuel IH]; intros s e s' e' Hs Hrun.
  - simpl in Hs. lia.
  - simpl in Hrun.
    destruct (Z.eqb_spec (s mod 10) 0) as [Hmod|Hmod]; simpl in Hrun.
    + destruct (Z.ltb_spec 0 s); [|lia].
      pose proof (Z.div_mod s 10) as Hdm.
      rewrite Nat2Z.inj_succ, Z.pow_succ_r in Hs by lia.
      apply IH in Hrun as (Hpos & Hle & Heq & Hnz); [|lia].
      repeat split; [done | lia | | done].
      replace (e' - e) with (Z.succ (e' - (e + 1))) by lia.
      rewrite Z.pow_succ_r by lia. lia.
    + injection Hrun as <- <-.
      repeat split; [lia | lia | | done].
      rewrite Z.sub_diag. simpl. lia.
Qed.

Lemma normalize_spec m e s' e' :
  m ≠ 0 → normalize m e = (s', e') →
  0 < s' ∧ e ≤ e' ∧ Z.abs m = s' * 10 ^ (e' - e) ∧ s' mod 10 ≠ 0.
Proof.
  intros Hm. unfold normalize. apply strip_zeros_spec.
  split; [lia | apply log2_fuel; lia].
Qed.

Lemma digit_cases d : is_digit d →
  d = 0 ∨ d = 1 ∨ d = 2 ∨ d = 3 ∨ d = 4 ∨ d = 5 ∨ d = 6 ∨ d = 7 ∨ d = 8 ∨ d = 9.
Proof. unfold is_digit. lia. Qed.

Ltac each_digit H :=
  apply digit_cases in H;
  repeat (destruct H as [H|H]; [subst|]); [..|subst].

Lemma radix_digit_char d : is_digit d → radix_digit 10 (digit_char d) = Some d.
Proof. intros H. each_digit H; reflexivity. Qed.

Lemma parse_digits_string_of_digits ds :
  Forall is_digit ds → ∀ acc,
  parse_digits 10 (string_of_digits ds) acc =
    match ds with
    | [] => acc
    | _ => Some (digits_value ds (default 0 acc))
    end.
Proof.
  induction 1 as [|d ds Hd Hds IH]; intros acc; [reflexivity|].
  simpl. rewrite radix_digit_char, IH by done.
  destruct ds; reflexivity.
Qed.

Lemma digits_value_zeros j : ∀ a,
  digits_value (repeat 0 j) a = a * 10 ^ Z.of_nat j.
Proof.
  induction j as [|j IH]; intros a.
  - simpl. lia.
  - cbn [repeat]. unfold digits_value in *. cbn [fold_left]. rewrite IH.
    rewrite Nat2Z.inj_succ, Z.pow_succ_r by lia. lia.
Qed.

Lemma digits_value_app ds ds' a :
  digits_value (ds ++ ds') a = digits_value ds' (digits_value ds a).
Proof. apply fold_left_app. Qed.

Lemma strip_radix_prefix_digits ds :
  Forall is_digit ds →
  strip_radix_prefix (string_of_digits ds) = (10, string_of_digits ds).
Proof.
  intros Hds. destruct Hds as [|d0 ds H0 Hds]; [reflexivity|].
  each_digit H0; try reflexivity.
  destruct Hds as [|d1 ds H1 Hds]; [reflexivity|].
  each_digit H1; reflexivity.
Qed.

Lemma strip_sign_digits ds :
  Forall is_digit ds →
  strip_sign (trim_start (string_of_digits ds)) = (false, string_of_digits ds).
Proof.
  intros Hds. destruct Hds as [|d0 ds H0 Hds]; [reflexivity|].
  each_digit H0; reflexivity.
Qed.

(** [parseInt] of a string of decimal digits, with or without a minus
    sign, is the integer the digits denote. *)
Lemma parseInt_string_digits (neg : bool) ds :
  Forall is_digit ds → ds ≠ [] →
  parseInt_string ((if neg then "-" else "") +:+ string_of_digits ds) =
  number_of_Z (if neg then - digits_value ds 0 else digits_value ds 0).
Proof.
  intros Hds Hne. unfold parseInt_string.
  assert (strip_sign (trim_start ((if neg then "-" else "") +:+ string_of_digits ds))
          = (neg, string_of_digits ds)) as ->.
  { destruct neg; [reflexivity|]. by apply strip_sign_digits. }
  rewrite strip_radix_prefix_digits, parse_digits_string_of_digits by done.
  destruct ds; [done | reflexivity].
Qed.

Lemma parseInt_integer n T :
  number_is_integer n T → Z.abs T < 10 ^ 21 →
  parseInt (VNum n) = number_of_Z T.
Proof.
  destruct n as [| |m e]; [done..|]. intros Hint Hbound.
  unfold parseInt. cbn [to_string number_to_string number_is_integer] in *.
  destruct (Z.eqb_spec m 0) as [->|Hm].
  { destruct (Z.leb_spec 0 e); [subst; reflexivity|].
    assert (T = 0) as -> by (pose proof (Z.pow_pos_nonneg 10 (- e)); nia).
    reflexivity. }
  destruct (normalize m e) as [s e'] eqn:Hnorm.
  apply normalize_spec in Hnorm as (Hs & Hle & Habs & Hnz); [|done].
  assert (0 ≤ e' ∧ Z.abs T = s * 10 ^ e') as [He' HT].
  { destruct (Z.leb_spec 0 e) as [He|He].
    - split; [lia|]. subst T.
      rewrite Z.abs_mul, Habs, (Z.abs_eq (10 ^ e)) by (apply Z.pow_nonneg; lia).
      rewrite <- Z.mul_assoc, <- Z.pow_add_r by lia. do 2 f_equal. lia.
    - assert (Z.abs T * 10 ^ (- e) = s * 10 ^ (e' - e)) as Heq.
      { rewrite <- Habs, Hint, Z.abs_mul, (Z.abs_eq (10 ^ (- e))); [done|].
        apply Z.pow_nonneg; lia. }
      destruct (Z.leb_spec 0 e') as [Hp|Hn].
      + split; [done|].
        replace (e' - e) with (e' + - e) in Heq by lia.
        rewrite Z.pow_add_r, Z.mul_assoc in Heq by lia.
        apply Z.mul_cancel_r in Heq; [done|]. apply Z.pow_nonzero; lia.
      + exfalso. apply Hnz.
        replace (- e) with (Z.succ (- e' - 1) + (e' - e)) in Heq by lia.
        rewrite Z.pow_add_r, Z.mul_assoc in Heq by lia.
        apply Z.mul_cancel_r in Heq; [|apply Z.pow_nonzero; lia].
        rewrite Z.pow_succ_r in Heq by lia.
        rewrite <- Heq. rewrite (Z.mul_comm 10), Z.mul_assoc. apply Z.mod_mul. lia. }
  pose proof (digits_length s Hs) as [Hk Hpow].
  pose proof (digits_is_digit s ltac:(lia)) as Hds.
  set (ds := digits s) in *. set (k := Z.of_nat (length ds)) in *.
  assert (e' + k ≤ 21) as Hn.
  { destruct (Z.le_gt_cases (e' + k) 21) as [|Hgt]; [done|exfalso].
    assert (10 ^ 21 ≤ 10 ^ (k - 1) * 10 ^ e').
    { rewrite <- Z.pow_add_r by lia. apply Z.pow_le_mono_r; lia. }
    assert (10 ^ (k - 1) * 10 ^ e' ≤ s * 10 ^ e').
    { apply Z.mul_le_mono_nonneg_r; [lia | done]. }
    lia. }
  replace ((k <=? e' + k) && (e' + k <=? 21)) with true by (symmetry; apply andb_true_iff; lia).
  replace (e' + k - k) with e' by lia.
  rewrite parseInt_string_digits.
  - rewrite digits_value_app, digits_value_zeros, Z2Nat.id by lia.
    subst ds. rewrite digits_value_of by lia. rewrite <- HT. f_equal.
    destruct (Z.ltb_spec m 0).
    + assert (T < 0) by (destruct (0 <=? e); nia). lia.
    + assert (0 ≤ T) by (destruct (Z.leb_spec 0 e); [|pose proof (Z.pow_pos_nonneg 10 (- e))]; nia). lia.
  - apply Forall_app. split; [done|]. apply Forall_forall. intros d Hin.
    apply list_elem_of_In, repeat_spec in Hin. subst d. split; lia.
  - destruct ds; [simpl in Hk; lia | done].
Qed.

(** What [parseInt] makes of numbers that are not integers below 10^21, and
    of strings that are not plain numerals. *)
Example parseInt_fraction : parseInt (VNum (Dec 4005 (-1))) = number_of_Z 400.
Proof. reflexivity. Qed.

Example parseInt_exponent : parseInt (VNum (Dec 1 21)) = number_of_Z 1.
Proof. reflexivity. Qed.

Example parseInt_small : parseInt (VNum (Dec 5 (-7))) = number_of_Z 5.
Proof. reflexivity. Qed.

Example parseInt_string_exponent : parseInt (VStr "4e2") = number_of_Z 4.
Proof. reflexivity. Qed.

Example parseInt_string_hex : parseInt (VStr "  0x1F4 ") = number_of_Z 500.
Proof. reflexivity. Qed.

Example parseInt_string_suffix : parseInt (VStr "404 Not Found") = number_of_Z 404.
Proof. reflexivity. Qed.

Example parseInt_string_word : parseInt (VStr "none") = NaN.
Proof. reflexivity. Qed.

(** ** Running the monad *)

Lemma bind_run {A B} (m : M A) (f : A → M B) st st1 a :
  m st = (st1, inr a) → (m ≫= f) st = f a st1.
Proof. unfold mbind, M_bind. by intros ->. Qed.

Lemma bind_throw {A B} (m : M A) (f : A → M B) st st1 e :
  m st = (st1, inl e) → (m ≫= f) st = (st1, inl e).
Proof. unfold mbind, M_bind. by intros ->. Qed.

Lemma get_prop_run v k st :
  get_prop v k st = (st, read_prop (heap st) v k).
Proof. reflexivity. Qed.

(** A property that was read came from an object, or is [undefined]. *)
Lemma read_prop_inr h v k x :
  read_prop h v k = inr x →
  not_undefined v = true ∧ ∀ k', ∃ x', read_prop h v k' = inr x'.
Proof.
  destruct v as [| | | | |l]; simpl; intros Hread; try done;
    (split; [done|]); intros k'; eauto.
  destruct (h !! l); [eauto | done].
Qed.

(** ** The logger *)

(** [configureLogger] reads the store and leaves the state as it is. *)
Lemma configureLogger_run loggerOptions st :
  configureLogger loggerOptions st =
  (st, (configureLogger loggerOptions st).2).
Proof.
  unfold configureLogger, get_prop, mbind, M_bind, get_heap, lift. simpl.
  destruct (not_undefined loggerOptions); [|reflexivity].
  destruct (read_prop (heap st) loggerOptions "format"); [reflexivity|].
  destruct (read_prop (heap st) loggerOptions "errorLimit"); reflexivity.
Qed.

Lemma configureLogger_readable loggerOptions st f el :
  read_prop (heap st) loggerOptions "format" = inr f →
  read_prop (heap st) loggerOptions "errorLimit" = inr el →
  configureLogger loggerOptions st =
  (st, inr (Morgan
    (if not_undefined f && String.eqb (typeof (heap st) f) "string"
     then f else VStr "dev")
    (if not_undefined el &&
        (String.eqb (typeof (heap st) el) "string" ||
         String.eqb (typeof (heap st) el) "number")
     then Some (SkipBelowErrorLimit loggerOptions) else None))).
Proof.
  intros Hf Hel. apply read_prop_inr in Hf as Hdef. destruct Hdef as [Hdef _].
  unfold configureLogger, get_prop, mbind, M_bind, get_heap, lift. simpl.
  rewrite Hdef, Hf, Hel. reflexivity.
Qed.

(** C5: called with no logging options ([undefined]), [configureLogger]
    makes the logger with the default format preset ['dev'] and with no
    skip function, and that logger logs every response. *)
Theorem configureLogger_no_options st :
  configureLogger VUndefined st = (st, inr (Morgan (VStr "dev") None)) ∧
  ∀ h res, logs h (Morgan (VStr "dev") None) res = inr true.
Proof. split; reflexivity. Qed.

Lemma reads_as_threshold_parseInt errorLimit T :
  reads_as_threshold errorLimit T → parseInt errorLimit = number_of_Z T.
Proof.
  destruct errorLimit as [| | |n|s|]; simpl; try done.
  intros [Hint Hbound]. by apply parseInt_integer.
Qed.

Lemma number_lt_of_Z a b :
  number_lt (number_of_Z a) (number_of_Z b) = (a <? b).
Proof. unfold number_lt, number_of_Z. simpl. by rewrite !Z.mul_1_r. Qed.

(** A decimal numeral is a string that reads as its integer. *)
Lemma parseInt_decimal_numeral T :
  parseInt_string (decimal_numeral T) = number_of_Z T.
Proof.
  unfold decimal_numeral.
  rewrite parseInt_string_digits.
  - rewrite digits_value_of by lia. f_equal. destruct (Z.ltb_spec T 0); lia.
  - apply digits_is_digit. lia.
  - apply digits_nonempty.
Qed.

(** C2, as amended: when [errorLimit] is an integer number [T] (below
    10^21 in size) or a string that [parseInt] reads as the integer [T],
    the logger made by [configureLogger] has a skip function, which skips
    exactly the responses whose status code is below [T]; the responses
    with a status code of [T] or more are logged. *)
Theorem skip_below_integer_threshold st loggerOptions errorLimit T :
  read_prop (heap st) loggerOptions "errorLimit" = inr errorLimit →
  reads_as_threshold errorLimit T →
  ∃ format,
    configureLogger loggerOptions st =
      (st, inr (Morgan format (Some (SkipBelowErrorLimit loggerOptions)))) ∧
    ∀ res,
      call_skip (heap st) (SkipBelowErrorLimit loggerOptions) res =
        inr (statusCode res <? T) ∧
      logs (heap st) (Morgan format (Some (SkipBelowErrorLimit loggerOptions))) res =
        inr (T <=? statusCode res).
Proof.
  intros Hel HT.
  destruct (read_prop_inr _ _ _ _ Hel) as [_ Hall].
  destruct (Hall "format") as [f Hf].
  eexists. split.
  - rewrite (configureLogger_readable _ _ _ _ Hf Hel).
    destruct errorLimit; try done; reflexivity.
  - intros res. unfold logs, call_skip. rewrite Hel.
    rewrite (reads_as_threshold_parseInt _ _ HT), number_lt_of_Z.
    split; [done|]. f_equal. rewrite Z.leb_antisym. reflexivity.
Qed.

(** C10: when [errorLimit] is a string in which [parseInt] finds no
    integer, the skip function is there and returns false for every
    response, so every response is logged; when [errorLimit] is neither a
    string nor a number, the logger is made with no skip function. *)
Theorem errorLimit_without_integer st loggerOptions errorLimit :
  read_prop (heap st) loggerOptions "errorLimit" = inr errorLimit →
  ∃ format skip,
    configureLogger loggerOptions st = (st, inr (Morgan format skip)) ∧
    (∀ s, errorLimit = VStr s → parseInt_string s = NaN →
       skip = Some (SkipBelowErrorLimit loggerOptions) ∧
       ∀ res,
         call_skip (heap st) (SkipBelowErrorLimit loggerOptions) res = inr false ∧
         logs (heap st) (Morgan format skip) res = inr true) ∧
    (typeof (heap st) errorLimit ≠ "string" →
     typeof (heap st) errorLimit ≠ "number" →
     skip = None).
Proof.
  intros Hel.
  destruct (read_prop_inr _ _ _ _ Hel) as [_ Hall].
  destruct (Hall "format") as [f Hf].
  do 2 eexists. split; [apply (configureLogger_readable _ _ _ _ Hf Hel)|].
  split.
  - intros s -> Hnan. split; [reflexivity|].
    intros res. unfold logs, call_skip. rewrite Hel.
    unfold parseInt. simpl. rewrite Hnan. split; [done|].
    rewrite Hel. simpl. by rewrite Hnan.
  - intros Hs Hn.
    destruct (String.eqb_spec (typeof (heap st) errorLimit) "string"); [done|].
    destruct (String.eqb_spec (typeof (heap st) errorLimit) "number"); [done|].
    by rewrite andb_false_r.
Qed.

(** ** The error handler *)

(** C3, as amended: the error handler answers with the [status] field of
    the failure when that field is truthy and with 500 when it is absent or
    falsy ([undefined], [null], [0], [NaN], the empty string, [false]); the
    JSON body has the [message] and [errors] fields of the failure, and
    nothing else; the state is left as it is. *)
Theorem errorHandler_sends st error s m e :
  read_prop (heap st) error "status" = inr s →
  read_prop (heap st) error "message" = inr m →
  read_prop (heap st) error "errors" = inr e →
  errorHandler error st =
    (st, inr {| sent_status := if truthy s then s else VNum (number_of_Z 500);
                sent_json := [("message", m); ("errors", e)] |}).
Proof.
  intros Hs Hm He.
  unfold errorHandler, get_prop, mbind, M_bind, get_heap, lift. simpl.
  rewrite Hs, Hm, He. reflexivity.
Qed.

(** ** The constructor *)

Lemma set_definitionPath_run v st :
  set_definitionPath v st =
  (State (heap st)
     {| app := app (this st); routingOptions := routingOptions (this st);
        parserLimit := parserLimit (this st); definitionPath := v;
        openApiValidatorOptions := openApiValidatorOptions (this st) |}, inr tt).
Proof. reflexivity. Qed.

Lemma set_routingOptions_run v st :
  set_routingOptions v st =
  (State (heap st)
     {| app := app (this st); routingOptions := v;
        parserLimit := parserLimit (this st);
        definitionPath := definitionPath (this st);
        openApiValidatorOptions := openApiValidatorOptions (this st) |}, inr tt).
Proof. reflexivity. Qed.

Lemma set_parserLimit_run v st :
  set_parserLimit v st =
  (State (heap st)
     {| app := app (this st); routingOptions := routingOptions (this st);
        parserLimit := v; definitionPath := definitionPath (this st);
        openApiValidatorOptions := openApiValidatorOptions (this st) |}, inr tt).
Proof. reflexivity. Qed.

Lemma set_app_run v st :
  set_app v st =
  (State (heap st)
     {| app := v; routingOptions := routingOptions (this st);
        parserLimit := parserLimit (this st);
        definitionPath := definitionPath (this st);
        openApiValidatorOptions := openApiValidatorOptions (this st) |}, inr tt).
Proof. reflexivity. Qed.

Lemma set_openApiValidatorOptions_run v st :
  set_openApiValidatorOptions v st =
  (State (heap st)
     {| app := app (this st); routingOptions := routingOptions (this st);
        parserLimit := parserLimit (this st);
        definitionPath := definitionPath (this st);
        openApiValidatorOptions := v |}, inr tt).
Proof. reflexivity. Qed.

Lemma get_this_run st : get_this st = (st, inr (this st)).
Proof. reflexivity. Qed.

Lemma alloc_run o st :
  alloc o st =
  (State (<[fresh (dom (heap st)) := o]> (heap st)) (this st),
   inr (VRef (fresh (dom (heap st))))).
Proof. reflexivity. Qed.

Lemma fresh_lookup (h : gmap loc object) : h !! fresh (dom h) = None.
Proof. apply not_elem_of_dom, is_fresh. Qed.

(** *** Registration *)

(** The chain of [a] is the only thing that [a.use] changes, and it grows
    at its end. *)
Lemma app_use_run l ps chain mw st :
  heap st !! l = Some (Object ps (Some chain)) →
  app_use (VRef l) mw st =
  (State (<[l := Object ps (Some (chain ++ [mw]))]> (heap st)) (this st), inr tt).
Proof.
  intros Hl. unfold app_use, mbind, M_bind, get_heap. simpl. by rewrite Hl.
Qed.

Lemma app_use_throw a mw st :
  chain_of (heap st) a = None →
  app_use a mw st = (st, inl TypeError).
Proof.
  unfold app_use, chain_of, mbind, M_bind, get_heap. simpl.
  destruct a as [| | | | |l]; try done.
  destruct (heap st !! l) as [[ps [c|]]|]; done.
Qed.

Lemma chain_of_Some h a c :
  chain_of h a = Some c →
  ∃ l ps, a = VRef l ∧ h !! l = Some (Object ps (Some c)).
Proof.
  destruct a as [| | | | |l]; try done. simpl.
  destruct (h !! l) as [[ps s]|] eqn:Hl; [|done]. simpl. intros ->.
  exists l, ps. split; [reflexivity | exact Hl].
Qed.

(** A state in which the chain of the application [l] has been set to
    [ms]. *)
Lemma use_registered l ps ms mw h t :
  app t = VRef l →
  use mw (State (<[l := Object ps (Some ms)]> h) t) =
  (State (<[l := Object ps (Some (ms ++ [mw]))]> h) t, inr tt).
Proof.
  intros Happ. unfold use. rewrite (bind_run _ _ _ _ _ (get_this_run _)).
  simpl. rewrite Happ.
  erewrite app_use_run by apply lookup_insert_eq.
  simpl. by rewrite insert_insert_eq.
Qed.

Lemma forEach_use_registered l ps h t (hs : list handler) : ∀ ms,
  app t = VRef l →
  forEach hs (λ m, use (Custom m)) (State (<[l := Object ps (Some ms)]> h) t) =
  (State (<[l := Object ps (Some (ms ++ map Custom hs))]> h) t, inr tt).
Proof.
  induction hs as [|x hs IH]; intros ms Happ; simpl.
  - by rewrite app_nil_r.
  - rewrite (bind_run _ _ _ _ _ (use_registered _ _ _ _ _ _ Happ)).
    rewrite IH by done. by rewrite <- app_assoc.
Qed.

(** Reading properties and taking [typeof] do not look at a chain. *)
Lemma read_prop_insert_stack h l ps s0 s1 v k :
  h !! l = Some (Object ps s0) →
  read_prop (<[l := Object ps s1]> h) v k = read_prop h v k.
Proof.
  intros Hl. destruct v as [| | | | |l']; try reflexivity. simpl.
  destruct (decide (l = l')) as [<-|Hne].
  - by rewrite lookup_insert_eq, Hl.
  - by rewrite lookup_insert_ne.
Qed.

Lemma typeof_insert_stack h l ps c0 c1 v :
  h !! l = Some (Object ps (Some c0)) →
  typeof (<[l := Object ps (Some c1)]> h) v = typeof h v.
Proof.
  intros Hl. destruct v as [| | | | |l']; try reflexivity. simpl.
  destruct (decide (l = l')) as [<-|Hne].
  - by rewrite lookup_insert_eq, Hl.
  - by rewrite lookup_insert_ne.
Qed.

Lemma configureLogger_insert_stack h l ps c0 c1 t v :
  h !! l = Some (Object ps (Some c0)) →
  (configureLogger v (State (<[l := Object ps (Some c1)]> h) t)).2 =
  (configureLogger v (State h t)).2.
Proof.
  intros Hl.
  unfold configureLogger, get_prop, mbind, M_bind, get_heap, lift.
  destruct (not_undefined v); [|reflexivity]. cbv [heap].
  rewrite !(read_prop_insert_stack _ _ _ _ _ _ _ Hl).
  destruct (read_prop h v "format") as [|f]; [reflexivity|].
  destruct (read_prop h v "errorLimit") as [|el]; [reflexivity|].
  cbn [snd mret M_ret]. by rewrite !(typeof_insert_stack _ _ _ _ _ _ Hl).
Qed.

Lemma get_prop_ok v k h t x :
  read_prop h v k = inr x → get_prop v k (State h t) = (State h t, inr x).
Proof. intros H. rewrite get_prop_run. cbn [heap]. by rewrite H. Qed.

Lemma get_prop_throw v k h t e :
  read_prop h v k = inl e → get_prop v k (State h t) = (State h t, inl e).
Proof. intros H. rewrite get_prop_run. cbn [heap]. by rewrite H. Qed.

Lemma read_prop_inl h v k e :
  read_prop h v k = inl e →
  e = TypeError ∧ ∀ k', read_prop h v k' = inl TypeError.
Proof.
  destruct v as [| | | | |l]; simpl; try done; try (by intros [= <-]).
  destruct (h !! l); [done | by intros [= <-]].
Qed.

Lemma object_at_None_set_prop v k x st :
  object_at (heap st) v = None → set_prop v k x st = (st, inl TypeError).
Proof.
  unfold set_prop, mbind, M_bind, get_heap. simpl.
  destruct v as [| | | | |l]; try done. simpl. by intros ->.
Qed.

Lemma set_prop_run l o k x st :
  heap st !! l = Some o →
  set_prop (VRef l) k x st =
  (State (<[l := Object (<[k := x]> (props o)) (stack o)]> (heap st)) (this st),
   inr tt).
Proof.
  intros Hl. unfold set_prop, mbind, M_bind, get_heap. simpl. by rewrite Hl.
Qed.

(** Lines 67-79, run in any state. *)
Lemma setOpenApiValidatorOptions_run path appOptions st st' r :
  (∀ k, ∃ x, read_prop (heap st) appOptions k = inr x) →
  setOpenApiValidatorOptions path appOptions st = (st', r) →
  app (this st') = app (this st) ∧
  routingOptions (this st') = routingOptions (this st) ∧
  parserLimit (this st') = parserLimit (this st) ∧
  definitionPath (this st') = definitionPath (this st) ∧
  ((r = inl TypeError ∧ heap st' = heap st ∧
    ∃ v, read_prop (heap st) appOptions "openApiValidator" = inr v ∧
         truthy v = true ∧ object_at (heap st) v = None) ∨
   (r = inr tt ∧
    validator_options_set path appOptions (heap st) (heap st')
      (openApiValidatorOptions (this st')))).
Proof.
  destruct st as [h t]. cbn [heap this].
  intros Hreadable Hrun. unfold setOpenApiValidatorOptions in Hrun.
  destruct (Hreadable "openApiValidator") as [v Hv].
  assert ((if negb (truthy appOptions) then mret true
           else v ← get_prop appOptions "openApiValidator"; mret (negb (truthy v)))
            (State h t)
          = (State h t, inr (negb (truthy appOptions) || negb (truthy v)))) as Habsent.
  { destruct (truthy appOptions); [|reflexivity]. cbn [negb].
    by rewrite (bind_run _ _ _ _ _ (get_prop_ok _ _ _ _ _ Hv)). }
  rewrite (bind_run _ _ _ _ _ Habsent) in Hrun. clear Habsent.
  destruct (truthy appOptions) eqn:Hopts; cbn [negb orb] in Hrun;
    [destruct (truthy v) eqn:Htv; cbn [negb orb] in Hrun|].
  - (* the options carry validator options *)
    rewrite (bind_run _ _ _ _ _ (get_prop_ok _ _ _ _ _ Hv)) in Hrun.
    rewrite (bind_run _ _ _ _ _ (set_openApiValidatorOptions_run _ _)) in Hrun.
    rewrite (bind_run _ _ _ _ _ (get_this_run _)) in Hrun.
    cbn [this heap openApiValidatorOptions] in Hrun.
    destruct (object_at h v) as [o|] eqn:Hobj.
    + destruct v as [| | | | |l]; try done. simpl in Hobj.
      rewrite (set_prop_run l o) in Hrun by done.
      injection Hrun as <- <-. cbn. repeat split; try done.
      right. split; [done|]. by constructor.
    + rewrite object_at_None_set_prop in Hrun by done.
      injection Hrun as <- <-. cbn. repeat split; try done.
      left. eauto 10.
  - rewrite (bind_run _ _ _ _ _ (alloc_run _ _)) in Hrun.
    rewrite set_openApiValidatorOptions_run in Hrun.
    injection Hrun as <- <-. cbn. repeat split; try done.
    right. split; [done|]. apply (validator_options_created _ _ _ v); [|done].
    by rewrite Hopts.
  - rewrite (bind_run _ _ _ _ _ (alloc_run _ _)) in Hrun.
    rewrite set_openApiValidatorOptions_run in Hrun.
    injection Hrun as <- <-. cbn. repeat split; try done.
    right. split; [done|]. apply (validator_options_created _ _ _ VUndefined); [|done].
    by rewrite Hopts.
Qed.

(** What was readable before lines 67-79 is readable after them, with the
    same value unless it is the [apiSpec] that they write. *)
Lemma validator_options_set_read path appOptions h h1 vo v k x :
  validator_options_set path appOptions h h1 vo →
  read_prop h v k = inr x →
  ∃ x', read_prop h1 v k = inr x' ∧ (k ≠ "apiSpec" → x' = x).
Proof.
  intros Hset Hread.
  destruct v as [| | | | |l']; try done;
    try (simpl in *; injection Hread as <-; by exists VUndefined).
  simpl in Hread. destruct (h !! l') as [o'|] eqn:Hl'; [|done].
  injection Hread as <-.
  destruct Hset as [v _ _|l o _ _ Hl]; simpl.
  - rewrite lookup_insert_ne, Hl'; [by eexists|].
    intros <-. by rewrite fresh_lookup in Hl'.
  - destruct (decide (l = l')) as [<-|Hne].
    + rewrite lookup_insert_eq. simpl. eexists. split; [done|].
      intros Hk. rewrite lookup_insert_ne by done. congruence.
    + rewrite lookup_insert_ne, Hl' by done. by eexists.
Qed.

(** Line 38 changes no object that is there. *)
Lemma application_obtained_lookup appOptions h1 h2 a l o :
  application_obtained appOptions h1 h2 a →
  h1 !! l = Some o → h2 !! l = Some o.
Proof.
  intros [given _ _|given _ _] Hl; [done|].
  rewrite lookup_insert_ne; [done|]. intros <-. by rewrite fresh_lookup in Hl.
Qed.

Lemma application_obtained_read appOptions h1 h2 a v k x :
  application_obtained appOptions h1 h2 a →
  read_prop h1 v k = inr x → read_prop h2 v k = inr x.
Proof.
  intros Happ Hread. destruct v as [| | | | |l]; try done.
  simpl in *. destruct (h1 !! l) as [o|] eqn:Hl; [|done].
  by rewrite (application_obtained_lookup _ _ _ _ _ _ Happ Hl).
Qed.

Lemma readFileSync_run path st :
  readFileSync path st =
  (st, match fs_readFileSync path with
       | Some text => inr text
       | None => inl IOError
       end).
Proof. unfold readFileSync. by destruct (fs_readFileSync path). Qed.

Lemma load_run text st :
  load text st =
  (st, match jsyaml_load text with
       | Some doc => inr doc
       | None => inl YAMLException
       end).
Proof. unfold load. by destruct (jsyaml_load text). Qed.

Lemma use_run l ps c mw h t :
  app t = VRef l →
  h !! l = Some (Object ps (Some c)) →
  use mw (State h t) =
  (State (<[l := Object ps (Some (c ++ [mw]))]> h) t, inr tt).
Proof.
  intros Happ Hl. unfold use. rewrite (bind_run _ _ _ _ _ (get_this_run _)).
  cbn [this]. rewrite Happ. by rewrite (app_use_run l ps c).
Qed.

Lemma use_throw mw h t :
  chain_of h (app t) = None →
  use mw (State h t) = (State h t, inl TypeError).
Proof.
  intros Hnone. unfold use. rewrite (bind_run _ _ _ _ _ (get_this_run _)).
  by apply app_use_throw.
Qed.

Lemma ret_run {A} (a : A) st : (mret a : M A) st = (st, inr a).
Proof. reflexivity. Qed.

Lemma readFileSync_ok path text st :
  fs_readFileSync path = Some text → readFileSync path st = (st, inr text).
Proof. intros H. by rewrite readFileSync_run, H. Qed.

Lemma readFileSync_throw path st :
  fs_readFileSync path = None → readFileSync path st = (st, inl IOError).
Proof. intros H. by rewrite readFileSync_run, H. Qed.

Lemma load_ok text doc st :
  jsyaml_load text = Some doc → load text st = (st, inr doc).
Proof. intros H. by rewrite load_run, H. Qed.

Lemma load_throw text st :
  jsyaml_load text = None → load text st = (st, inl YAMLException).
Proof. intros H. by rewrite load_run, H. Qed.

Lemma get_prop_registered h l ps s0 s1 t v k x :
  h !! l = Some (Object ps s0) →
  read_prop h v k = inr x →
  get_prop v k (State (<[l := Object ps s1]> h) t) =
  (State (<[l := Object ps s1]> h) t, inr x).
Proof.
  intros Hl Hread. apply get_prop_ok.
  by rewrite (read_prop_insert_stack _ _ _ _ _ _ _ Hl).
Qed.

Lemma configureLogger_registered h l ps c ms t v :
  h !! l = Some (Object ps (Some c)) →
  configureLogger v (State (<[l := Object ps (Some ms)]> h) t) =
  (State (<[l := Object ps (Some ms)]> h) t, (configureLogger v (State h t)).2).
Proof.
  intros Hl. rewrite configureLogger_run. f_equal.
  by apply (configureLogger_insert_stack _ _ _ c).
Qed.

(** *** The writes of collaborators *)

Lemma lookup_write_props h w l :
  write_props h w !! l =
  match h !! l, w !! l with
  | Some o, Some ps => Some (Object ps (stack o))
  | Some o, None => Some o
  | None, Some ps => Some (Object ps None)
  | None, None => None
  end.
Proof.
  unfold write_props. rewrite lookup_merge.
  by destruct (h !! l), (w !! l).
Qed.

(** The writes of a collaborator leave every object in place, with its
    chain. *)
Lemma write_props_lookup h w l o :
  h !! l = Some o →
  ∃ o', write_props h w !! l = Some o' ∧ stack o' = stack o.
Proof.
  intros Hl. rewrite lookup_write_props, Hl.
  destruct (w !! l); eauto.
Qed.

Lemma chain_of_write_props h w a c :
  chain_of h a = Some c → chain_of (write_props h w) a = Some c.
Proof.
  intros Hc. apply chain_of_Some in Hc as (l & ps & -> & Hl).
  destruct (write_props_lookup h w _ _ Hl) as (o' & Hl' & Hs).
  simpl. by rewrite Hl', Hs.
Qed.

Lemma call_run c h t :
  call c (State h t) =
  (State (write_props h (written (c h))) t,
   match thrown (c h) with Some e => inl e | None => inr tt end).
Proof.
  unfold call, mbind, M_bind, get_heap, put_heap. cbn [heap this].
  by destruct (thrown (c h)).
Qed.

(** *** Registration, on any store *)

Lemma lookup_register_ne l l' mws h :
  l ≠ l' → register l mws h !! l' = h !! l'.
Proof. intros Hne. unfold register. by rewrite lookup_alter_ne. Qed.

Lemma lookup_register_eq l mws h :
  register l mws h !! l =
  (λ o, Object (props o) ((λ chain, chain ++ mws) <$> stack o)) <$> h !! l.
Proof. unfold register. by rewrite lookup_alter_eq. Qed.

Lemma register_insert l ps c mws h :
  h !! l = Some (Object ps (Some c)) →
  register l mws h = <[l := Object ps (Some (c ++ mws))]> h.
Proof.
  intros Hl. apply map_eq. intros i.
  destruct (decide (l = i)) as [<-|Hne].
  - by rewrite lookup_register_eq, Hl, lookup_insert_eq.
  - by rewrite lookup_register_ne, lookup_insert_ne.
Qed.

Lemma register_inserted l ps c mws h :
  register l mws (<[l := Object ps (Some c)]> h) =
  <[l := Object ps (Some (c ++ mws))]> h.
Proof.
  rewrite (register_insert l ps c) by apply lookup_insert_eq.
  apply insert_insert_eq.
Qed.

Lemma register_register l a b h :
  register l b (register l a h) = register l (a ++ b) h.
Proof.
  apply map_eq. intros i. destruct (decide (l = i)) as [<-|Hne].
  - rewrite !lookup_register_eq. destruct (h !! l) as [[ps [c|]]|]; simpl;
      [by rewrite app_assoc|done..].
  - by rewrite !lookup_register_ne.
Qed.

Lemma register_nil l h : register l [] h = h.
Proof.
  apply map_eq. intros i. destruct (decide (l = i)) as [<-|Hne].
  - rewrite lookup_register_eq. destruct (h !! l) as [[ps [c|]]|]; simpl;
      [by rewrite app_nil_r|done..].
  - by rewrite lookup_register_ne.
Qed.

Lemma chain_of_register l mws h c :
  chain_of h (VRef l) = Some c →
  chain_of (register l mws h) (VRef l) = Some (c ++ mws).
Proof.
  intros Hc. apply chain_of_Some in Hc as (l' & ps & [= <-] & Hl).
  simpl. by rewrite lookup_register_eq, Hl.
Qed.

Lemma register_lookup l mws h l' o :
  h !! l' = Some o →
  ∃ o', register l mws h !! l' = Some o' ∧ props o' = props o ∧
        (l' ≠ l → stack o' = stack o).
Proof.
  intros Hl. destruct (decide (l = l')) as [<-|Hne].
  - rewrite lookup_register_eq, Hl. simpl. eexists. split; [done|].
    split; [done|]. congruence.
  - rewrite lookup_register_ne, Hl by done. eauto.
Qed.

Lemma read_prop_register l mws h v k :
  read_prop (register l mws h) v k = read_prop h v k.
Proof.
  destruct v as [| | | | |l']; try reflexivity. simpl.
  destruct (decide (l = l')) as [<-|Hne].
  - rewrite lookup_register_eq. by destruct (h !! l).
  - by rewrite lookup_register_ne.
Qed.

Lemma use_register l c mw h t :
  app t = VRef l →
  chain_of h (VRef l) = Some c →
  use mw (State h t) = (State (register l [mw] h) t, inr tt).
Proof.
  intros Happ Hc. apply chain_of_Some in Hc as (l' & ps & [= <-] & Hl).
  rewrite (use_run l ps c) by done.
  by rewrite (register_insert l ps c).
Qed.

Lemma forEach_use_register l h t (hs : list handler) : ∀ c,
  app t = VRef l →
  chain_of h (VRef l) = Some c →
  forEach hs (λ m, use (Custom m)) (State h t) =
  (State (register l (map Custom hs) h) t, inr tt).
Proof.
  revert h. induction hs as [|x hs IH]; intros h c Happ Hc; simpl.
  - by rewrite register_nil.
  - rewrite (bind_run _ _ _ _ _ (use_register _ _ _ _ _ Happ Hc)).
    rewrite (IH _ (c ++ [Custom x])) by (done || by apply chain_of_register).
    by rewrite register_register.
Qed.

(** *** Lines 55-64 *)

(** A run of lines 55-64 that returns has registered five kinds of
    middleware after those that were there. *)
Lemma complete_chain swaggerDoc uiOptions customs t l h3 h' c :
  chain_of h3 (VRef l) = Some c →
  complete swaggerDoc uiOptions customs t l h3 = (h', inr tt) →
  chain_of h' (VRef l) =
    Some (c ++
          [ SwaggerUIStatic swaggerDoc uiOptions;
            OpenApiValidatorMiddleware (openApiValidatorOptions t);
            CheckParameters ] ++
          map Custom customs ++
          [ SwaggerRouterInitialize (routingOptions t); ErrorHandler ]).
Proof.
  intros Hc. unfold complete.
  destruct (thrown (new_SwaggerUI _ _ _)); [done|].
  destruct (thrown (OpenApiValidator_middleware _ _)); [done|].
  destruct (thrown (SwaggerRouter_initialize _ _)); [done|].
  intros [= <-].
  erewrite chain_of_register.
  2: { apply chain_of_write_props, chain_of_register, chain_of_write_props,
         chain_of_register, chain_of_write_props, Hc. }
  by rewrite <- !app_assoc.
Qed.

(** Lines 55-64 leave every object in place, and every chain but that of
    the application of the instance as it was. *)
Lemma complete_lookup swaggerDoc uiOptions customs t l h3 h' r l' o :
  complete swaggerDoc uiOptions customs t l h3 = (h', r) →
  h3 !! l' = Some o →
  ∃ o', h' !! l' = Some o' ∧ (l' ≠ l → stack o' = stack o).
Proof.
  assert (∀ w h, (∃ o', h !! l' = Some o' ∧ (l' ≠ l → stack o' = stack o)) →
            ∃ o', write_props h w !! l' = Some o' ∧ (l' ≠ l → stack o' = stack o))
    as Hwrite.
  { intros w h (o1 & Hl1 & Hs1).
    destruct (write_props_lookup h w _ _ Hl1) as (o2 & Hl2 & Hs2).
    exists o2. split; [done|]. intros Hne. by rewrite Hs2, Hs1. }
  assert (∀ mws h, (∃ o', h !! l' = Some o' ∧ (l' ≠ l → stack o' = stack o)) →
            ∃ o', register l mws h !! l' = Some o' ∧ (l' ≠ l → stack o' = stack o))
    as Hreg.
  { intros mws h (o1 & Hl1 & Hs1).
    destruct (register_lookup l mws h _ _ Hl1) as (o2 & Hl2 & _ & Hs2).
    exists o2. split; [done|]. intros Hne. by rewrite Hs2, Hs1. }
  intros Hrun Hl. unfold complete in Hrun.
  assert (∃ o', h3 !! l' = Some o' ∧ (l' ≠ l → stack o' = stack o)) as H3
    by (by exists o).
  destruct (thrown (new_SwaggerUI _ _ _)).
  { injection Hrun as <- <-. by apply Hwrite. }
  destruct (thrown (OpenApiValidator_middleware _ _)).
  { injection Hrun as <- <-. by apply Hwrite, Hreg, Hwrite. }
  destruct (thrown (SwaggerRouter_initialize _ _)).
  { injection Hrun as <- <-. by apply Hwrite, Hreg, Hwrite, Hreg, Hwrite. }
  injection Hrun as <- <-.
  by apply Hreg, Hwrite, Hreg, Hwrite, Hreg, Hwrite.
Qed.

(** A property that the collaborators leave alone reads after lines 55-64
    as it did before them. *)
Lemma complete_read swaggerDoc uiOptions customs t l h3 h' r v k x :
  leaves (new_SwaggerUI swaggerDoc uiOptions) v k →
  leaves (OpenApiValidator_middleware (openApiValidatorOptions t)) v k →
  leaves (SwaggerRouter_initialize (routingOptions t)) v k →
  complete swaggerDoc uiOptions customs t l h3 = (h', r) →
  read_prop h3 v k = inr x →
  read_prop h' v k = inr x.
Proof.
  intros Hui Hvalidator Hrouter Hrun Hread. unfold complete in Hrun.
  apply Hui in Hread.
  destruct (thrown (new_SwaggerUI _ _ _)); [by injection Hrun as <- <-|].
  rewrite <- (read_prop_register l [SwaggerUIStatic swaggerDoc uiOptions]) in Hread.
  apply Hvalidator in Hread.
  destruct (thrown (OpenApiValidator_middleware _ _)); [by injection Hrun as <- <-|].
  rewrite <- (read_prop_register l
    ([OpenApiValidatorMiddleware (openApiValidatorOptions t); CheckParameters]
       ++ map Custom customs)) in Hread.
  apply Hrouter in Hread.
  destruct (thrown (SwaggerRouter_initialize _ _)); [by injection Hrun as <- <-|].
  injection Hrun as <- <-. by rewrite read_prop_register.
Qed.

(** Lines 55-64 return when the three collaborators do. *)
Lemma complete_returns swaggerDoc uiOptions customs t l h3 :
  returns (new_SwaggerUI swaggerDoc uiOptions) →
  returns (OpenApiValidator_middleware (openApiValidatorOptions t)) →
  returns (SwaggerRouter_initialize (routingOptions t)) →
  (complete swaggerDoc uiOptions customs t l h3).2 = inr tt.
Proof.
  intros Hui Hvalidator Hrouter. unfold complete.
  by rewrite Hui, Hvalidator, Hrouter.
Qed.

(** The run of lines 55-64 on an application [l]. *)
Lemma lines_55_64_run swaggerDoc uiOptions (customs : list handler) l c h3 t :
  app t = VRef l →
  chain_of h3 (VRef l) = Some c →
  (call (new_SwaggerUI swaggerDoc uiOptions);;
   use (SwaggerUIStatic swaggerDoc uiOptions);;
   t ← get_this; call (OpenApiValidator_middleware (openApiValidatorOptions t));;
   use (OpenApiValidatorMiddleware (openApiValidatorOptions t));;
   use CheckParameters;;
   forEach customs (λ middleware, use (Custom middleware));;
   t ← get_this; call (SwaggerRouter_initialize (routingOptions t));;
   use (SwaggerRouterInitialize (routingOptions t));;
   use ErrorHandler) (State h3 t) =
  (State (complete swaggerDoc uiOptions customs t l h3).1 t,
   (complete swaggerDoc uiOptions customs t l h3).2).
Proof.
  intros Happ Hc. unfold complete. cbv zeta.
  destruct (thrown (new_SwaggerUI swaggerDoc uiOptions h3)) as [e|] eqn:Hui.
  { erewrite bind_throw by (by rewrite call_run, Hui). done. }
  erewrite bind_run by (by rewrite call_run, Hui).
  apply (chain_of_write_props _ (written (new_SwaggerUI swaggerDoc uiOptions h3)))
    in Hc.
  erewrite bind_run by (by eapply use_register).
  apply (chain_of_register _ [SwaggerUIStatic swaggerDoc uiOptions]) in Hc.
  rewrite (bind_run _ _ _ _ _ (get_this_run _)). cbn [this].
  match goal with
  | |- context [thrown (OpenApiValidator_middleware ?o ?h)] =>
      destruct (thrown (OpenApiValidator_middleware o h)) as [e|] eqn:Hvalidator;
      apply (chain_of_write_props _ (written (OpenApiValidator_middleware o h)))
        in Hc
  end.
  { erewrite bind_throw by (by rewrite call_run, Hvalidator). done. }
  erewrite bind_run by (by rewrite call_run, Hvalidator).
  erewrite bind_run by (by eapply use_register).
  apply (chain_of_register _
           [OpenApiValidatorMiddleware (openApiValidatorOptions t)]) in Hc.
  erewrite bind_run by (by eapply use_register).
  apply (chain_of_register _ [CheckParameters]) in Hc.
  erewrite bind_run by (by eapply forEach_use_register).
  apply (chain_of_register _ (map Custom customs)) in Hc.
  rewrite !register_register in Hc |- *. cbn [Datatypes.app] in Hc |- *.
  rewrite (bind_run _ _ _ _ _ (get_this_run _)). cbn [this].
  match goal with
  | |- context [thrown (SwaggerRouter_initialize ?o ?h)] =>
      destruct (thrown (SwaggerRouter_initialize o h)) as [e|] eqn:Hrouter;
      apply (chain_of_write_props _ (written (SwaggerRouter_initialize o h)))
        in Hc
  end.
  { erewrite bind_throw by (by rewrite call_run, Hrouter). done. }
  erewrite bind_run by (by rewrite call_run, Hrouter).
  erewrite bind_run by (by eapply use_register).
  apply (chain_of_register _
           [SwaggerRouterInitialize (routingOptions t)]) in Hc.
  erewrite use_register by done.
  by rewrite register_register.
Qed.
(** Projections of a state or an instance that is written out. *)
Ltac fields H :=
  cbn [heap this uninitialized app routingOptions parserLimit definitionPath
       openApiValidatorOptions] in H.

(** The constructor, phase by phase: it throws before line 38 and leaves
    the store as it was, or it goes through lines 67-79, line 38 and the
    registrations. *)
Lemma constructor_run path appOptions customs jt h st' r :
  constructor path appOptions customs jt (State h uninitialized) = (st', r) →
  (r = inl TypeError ∧ heap st' = h ∧ fails_early appOptions h) ∨
  ∃ routing limit h1 h2,
    read_prop h appOptions "routing" = inr routing ∧
    read_prop h appOptions "parserLimit" = inr limit ∧
    routingOptions (this st') = routing ∧
    parserLimit (this st') = js_or limit (VStr "100kb") ∧
    definitionPath (this st') = VStr path ∧
    validator_options_set path appOptions h h1 (openApiValidatorOptions (this st')) ∧
    application_obtained appOptions h1 h2 (app (this st')) ∧
    registration path appOptions customs jt h2 (this st') (heap st') r.
Proof.
  intros Hrun. unfold constructor in Hrun.
  rewrite (bind_run _ _ _ _ _ (set_definitionPath_run _ _)) in Hrun.
  fields Hrun.
  destruct (read_prop h appOptions "routing") as [e|routing] eqn:Hrouting.
  { (* line 33 throws *)
    apply read_prop_inl in Hrouting as [-> Hall].
    rewrite (bind_throw _ _ _ _ _ (get_prop_throw _ _ _ _ _ (Hall "routing")))
      in Hrun.
    injection Hrun as <- <-. left. do 2 (split; [done|]). left. apply Hall. }
  destruct (read_prop_inr _ _ _ _ Hrouting) as [_ Hall].
  destruct (Hall "parserLimit") as [limit Hlimit].
  rewrite (bind_run _ _ _ _ _ (get_prop_ok _ _ _ _ _ Hrouting)) in Hrun.
  rewrite (bind_run _ _ _ _ _ (set_routingOptions_run _ _)) in Hrun.
  fields Hrun.
  rewrite (bind_run _ _ _ _ _ (get_prop_ok _ _ _ _ _ Hlimit)) in Hrun.
  rewrite (bind_run _ _ _ _ _ (set_parserLimit_run _ _)) in Hrun.
  fields Hrun.
  (* lines 67-79 *)
  match type of Hrun with
  | (setOpenApiValidatorOptions _ _ ≫= _) ?st = _ =>
      destruct (setOpenApiValidatorOptions path appOptions st)
        as [[h1 [a0 r0 p0 d0 vo]] rv] eqn:Hv
  end.
  pose proof (setOpenApiValidatorOptions_run _ _ (State h _) _ _ Hall Hv)
    as (Ha & Hr & Hp & Hd & Hcases).
  fields Ha; fields Hr; fields Hp; fields Hd; fields Hcases.
  subst a0 r0 p0 d0.
  destruct Hcases as [(-> & -> & Hbad)|(-> & Hset)].
  { rewrite (bind_throw _ _ _ _ _ Hv) in Hrun.
    injection Hrun as <- <-. left. do 2 (split; [done|]). by right. }
  rewrite (bind_run _ _ _ _ _ Hv) in Hrun. clear Hv.
  (* line 38 *)
  destruct (Hall "app") as [given0 Hgiven0].
  destruct (validator_options_set_read _ _ _ _ _ _ _ _ Hset Hgiven0)
    as (given & Hgiven & _).
  rewrite (bind_run _ _ _ _ _ (get_prop_ok _ _ _ _ _ Hgiven)) in Hrun.
  match type of Hrun with
  | (_ ≫= ?k) ?st = _ =>
      assert (∃ h2 a, application_obtained appOptions h1 h2 a ∧
                      k a (State h2 (this st)) = (st', r)) as (h2 & a & Happ & Hrun2)
  end.
  { destruct (truthy given) eqn:Htruthy.
    - exists h1, given. split; [by constructor|].
      by rewrite (bind_run _ _ _ _ _ (ret_run _ _)) in Hrun.
    - eexists _, _. split; [by apply (application_created _ _ given)|].
      unfold express in Hrun.
      by rewrite (bind_run _ _ _ _ _ (alloc_run _ _)) in Hrun. }
  clear Hrun. cbv beta in Hrun2. cbn [this] in Hrun2.
  rewrite (bind_run _ _ _ _ _ (set_app_run _ _)) in Hrun2.
  fields Hrun2.
  assert (∀ k, ∃ x, read_prop h2 appOptions k = inr x) as Hall2.
  { intros k. destruct (Hall k) as [x0 Hx0].
    destruct (validator_options_set_read _ _ _ _ _ _ _ _ Hset Hx0) as (x & Hx & _).
    exists x. by apply (application_obtained_read _ _ _ _ _ _ _ Happ). }
  destruct (Hall2 "cors") as [corsOptions Hcors].
  rewrite (bind_run _ _ _ _ _ (get_prop_ok _ _ _ _ _ Hcors)) in Hrun2.
  match goal with
  | |- ?G =>
      assert (∀ res,
        registration path appOptions customs jt h2
          {| app := a; routingOptions := routing;
             parserLimit := js_or limit (VStr "100kb");
             definitionPath := VStr path; openApiValidatorOptions := vo |}
          (heap st') res →
        this st' = {| app := a; routingOptions := routing;
             parserLimit := js_or limit (VStr "100kb");
             definitionPath := VStr path; openApiValidatorOptions := vo |} →
        r = res → G) as Hdone
  end.
  { intros res Hreg Hthis ->. right. exists routing, limit, h1, h2.
    rewrite Hthis. done. }
  (* line 40 *)
  destruct (chain_of h2 a) as [c|] eqn:Hchain.
  2: { erewrite bind_throw in Hrun2 by (apply use_throw; exact Hchain).
       injection Hrun2 as <- <-.
       eapply Hdone; [|done..]. by constructor. }
  apply chain_of_Some in Hchain as (l & ps & -> & Hl).
  erewrite bind_run in Hrun2 by (by apply (use_run l ps c)).
  cbn [heap this app] in Hrun2.
  (* lines 42-43 *)
  destruct (fs_readFileSync path) as [text|] eqn:Hfs.
  2: { rewrite (bind_throw _ _ _ _ _ (readFileSync_throw _ _ Hfs)) in Hrun2.
       injection Hrun2 as <- <-.
       eapply Hdone; [|done..]. by eapply file_unreadable. }
  rewrite (bind_run _ _ _ _ _ (readFileSync_ok _ _ _ Hfs)) in Hrun2.
  destruct (jsyaml_load text) as [swaggerDoc|] eqn:Hyaml.
  2: { rewrite (bind_throw _ _ _ _ _ (load_throw _ _ Hyaml)) in Hrun2.
       injection Hrun2 as <- <-.
       eapply Hdone; [|done..]. by eapply file_malformed. }
  rewrite (bind_run _ _ _ _ _ (load_ok _ _ _ Hyaml)) in Hrun2.
  (* lines 45-48 *)
  do 4 (rewrite (bind_run _ _ _ _ _ (get_this_run _)) in Hrun2;
        cbn [this parserLimit] in Hrun2;
        erewrite bind_run in Hrun2 by (by apply use_registered)).
  (* line 50 *)
  destruct (Hall2 "logging") as [logging Hlogging].
  rewrite (bind_run _ _ _ _ _ (get_prop_registered _ _ _ _ _ _ _ _ _ Hl Hlogging))
    in Hrun2.
  pose proof (configureLogger_registered h2 l ps c) as Hlog.
  match type of Hrun2 with
  | (_ ≫= _) (State (<[_ := Object _ (Some ?ms)]> _) ?t) = _ =>
      specialize (Hlog ms t logging Hl)
  end.
  destruct (configureLogger logging (State h2 _)).2 as [e|logger] eqn:Hlogger.
  { rewrite (bind_throw _ _ _ _ _ Hlog) in Hrun2.
    injection Hrun2 as <- <-.
    eapply Hdone; [|done..]. cbn [heap].
    rewrite <- !app_assoc. by eapply logger_failed. }
  rewrite (bind_run _ _ _ _ _ Hlog) in Hrun2. clear Hlog.
  (* lines 50-53 *)
  do 4 (erewrite bind_run in Hrun2 by (by apply use_registered)).
  (* lines 55-64 *)
  destruct (Hall2 "swaggerUI") as [uiOptions Hui].
  rewrite (bind_run _ _ _ _ _ (get_prop_registered _ _ _ _ _ _ _ _ _ Hl Hui))
    in Hrun2.
  rewrite <- !app_assoc in Hrun2. cbn [Datatypes.app] in Hrun2.
  erewrite lines_55_64_run in Hrun2;
    [|done|simpl; by rewrite lookup_insert_eq].
  injection Hrun2 as <- <-.
  eapply Hdone; [|done..]. cbn [heap].
  eapply collaborators_called; [done..|]. apply surjective_pairing.
Qed.

(** ** What construction does to the store *)

Lemma new_ExpressAppConfig_run path appOptions customs jt h h' res :
  new_ExpressAppConfig path appOptions customs jt h = (h', res) →
  ∃ st' r,
    constructor path appOptions customs jt (State h uninitialized) = (st', r) ∧
    h' = heap st' ∧
    res = match r with inr _ => inr (this st') | inl e => inl e end.
Proof.
  unfold new_ExpressAppConfig.
  destruct (constructor _ _ _ _ _) as [st' [e|u]]; intros [= <- <-]; eauto.
Qed.

(** Lines 67-79 keep every chain. *)
Lemma validator_options_set_chain path appOptions h h1 vo a c :
  validator_options_set path appOptions h h1 vo →
  chain_of h a = Some c → chain_of h1 a = Some c.
Proof.
  intros Hset Hchain. apply chain_of_Some in Hchain as (l & ps & -> & Hl).
  simpl. destruct Hset as [v _ _|lv o _ _ Hlv].
  - rewrite lookup_insert_ne, Hl; [done|].
    intros <-. by rewrite fresh_lookup in Hl.
  - destruct (decide (lv = l)) as [->|Hne].
    + rewrite lookup_insert_eq. simpl. by simplify_eq.
    + by rewrite lookup_insert_ne, Hl.
Qed.

(** An application found after lines 67-79 and line 38 either was there
    before, with the same chain, or is the new one, with an empty chain. *)
Lemma chain_before path appOptions h h1 h2 vo a l ps c :
  validator_options_set path appOptions h h1 vo →
  application_obtained appOptions h1 h2 a →
  a = VRef l →
  h2 !! l = Some (Object ps (Some c)) →
  default [] (chain_of h a) = c.
Proof.
  intros Hset Happ -> Hl. simpl.
  assert (h1 !! l = None → h !! l = None) as Hnone.
  { intros H1. destruct (h !! l) as [o|] eqn:Ho; [|done].
    assert (chain_of h1 (VRef l) = None) as Hc by (simpl; by rewrite H1).
    destruct Hset as [v _ _|lv o' _ _ Hlv].
    - rewrite lookup_insert_ne in H1; [congruence|].
      intros <-. by rewrite fresh_lookup in Ho.
    - destruct (decide (lv = l)) as [->|Hne].
      + by rewrite lookup_insert_eq in H1.
      + rewrite lookup_insert_ne in H1 by done. congruence. }
  inversion Happ as [given _ _ Hh2 Ha|given _ _ Hh2 Ha]; subst.
  - (* the application was given *)
    destruct Hset as [v _ _|lv o _ _ Hlv].
    + destruct (decide (fresh (dom h) = l)) as [<-|Hne].
      * by rewrite lookup_insert_eq in Hl.
      * rewrite lookup_insert_ne in Hl by done. by rewrite Hl.
    + destruct (decide (lv = l)) as [->|Hne].
      * rewrite lookup_insert_eq in Hl. injection Hl as _ Hs.
        by rewrite Hlv, Hs.
      * rewrite lookup_insert_ne in Hl by done. by rewrite Hl.
  - (* the application is new *)
    rewrite lookup_insert_eq in Hl. injection Hl as _ <-.
    by rewrite (Hnone (fresh_lookup h1)).
Qed.

(** The registrations leave every object in place, and every chain but
    that of the application of the instance as it was. *)
Lemma registration_lookup path appOptions customs jt h2 t h' r l o :
  registration path appOptions customs jt h2 t h' r →
  h2 !! l = Some o →
  ∃ o', h' !! l = Some o' ∧ (app t ≠ VRef l → stack o' = stack o).
Proof.
  intros Hreg Hl.
  destruct Hreg as [_|la ps c ? Ha Hla|la ps c ? ? Ha Hla
                   |la ps c ? ? ? ? ? Ha Hla
                   |la ps c ? ? ? ? ? ? h' r Ha Hla _ _ _ _ _ _ Hrun];
    [by exists o|..].
  1-3: destruct (decide (la = l)) as [->|Hne];
      [rewrite lookup_insert_eq; eexists; split; [done|]; congruence
      |rewrite lookup_insert_ne by done; by exists o].
  destruct (decide (la = l)) as [->|Hne].
  - destruct (complete_lookup _ _ _ _ _ _ _ _ l _ Hrun (lookup_insert_eq _ _ _))
      as (o' & Hl' & _).
    exists o'. split; [done|]. congruence.
  - assert (<[la := Object ps (Some (c ++ opening corsOptions (parserLimit t)
                logger (default "application/json" jt)))]> h2 !! l = Some o)
      as Hl3 by by rewrite lookup_insert_ne.
    destruct (complete_lookup _ _ _ _ _ _ _ _ l _ Hrun Hl3) as (o' & Hl' & Hs).
    exists o'. split; [done|]. intros _. apply Hs. congruence.
Qed.

(** A property that the collaborators leave alone reads after the
    registrations as it did before them: the class itself writes no
    property there. *)
Lemma registration_read path appOptions customs jt h2 t h' r v k x :
  (∀ swaggerDoc uiOptions,
     read_prop h2 appOptions "swaggerUI" = inr uiOptions →
     leaves (new_SwaggerUI swaggerDoc uiOptions) v k) →
  leaves (OpenApiValidator_middleware (openApiValidatorOptions t)) v k →
  leaves (SwaggerRouter_initialize (routingOptions t)) v k →
  registration path appOptions customs jt h2 t h' r →
  read_prop h2 v k = inr x →
  read_prop h' v k = inr x.
Proof.
  intros Hui Hvalidator Hrouter Hreg Hread.
  destruct Hreg as [_|la ps c ? _ Hla|la ps c ? ? _ Hla
                   |la ps c ? ? ? ? ? _ Hla
                   |la ps c ? ? ? ? ? ? h' r _ Hla _ _ _ _ _ ? Hrun];
    [done|..].
  1-3: by rewrite (read_prop_insert_stack _ _ _ _ _ _ _ Hla).
  eapply complete_read; [by apply Hui|done..|].
  by rewrite (read_prop_insert_stack _ _ _ _ _ _ _ Hla).
Qed.

(** Registrations that return have gone through every line. *)
Lemma registered path appOptions customs jt h2 t h' :
  registration path appOptions customs jt h2 t h' (inr tt) →
  ∃ l ps c corsOptions text swaggerDoc logging logger uiOptions,
    app t = VRef l ∧
    h2 !! l = Some (Object ps (Some c)) ∧
    read_prop h2 appOptions "cors" = inr corsOptions ∧
    fs_readFileSync path = Some text ∧
    jsyaml_load text = Some swaggerDoc ∧
    read_prop h2 appOptions "logging" = inr logging ∧
    (configureLogger logging (State h2 t)).2 = inr logger ∧
    read_prop h2 appOptions "swaggerUI" = inr uiOptions ∧
    chain_of h' (VRef l) =
      Some (c ++
            pipeline corsOptions (parserLimit t) logger
              (default "application/json" jt) swaggerDoc uiOptions
              (openApiValidatorOptions t) (default [] customs)
              (routingOptions t)).
Proof.
  intros Hreg.
  inversion Hreg as [| | | |l ps c co text doc logging logger ui h'' r
                       Ha Hl Hcors Hfs Hyaml Hlogging Hlogger Hui Hrun Hh' Hr].
  exists l, ps, c, co, text, doc, logging, logger, ui.
  do 8 (split; [done|]).
  eapply complete_chain in Hrun; [|simpl; by rewrite lookup_insert_eq].
  rewrite Hrun. unfold pipeline, opening. by rewrite <- !app_assoc.
Qed.

Lemma configureLogger_Morgan v st logger :
  (configureLogger v st).2 = inr logger → ∃ format skip, logger = Morgan format skip.
Proof.
  unfold configureLogger, get_prop, mbind, M_bind, get_heap, lift.
  destruct (not_undefined v); [|intros [= <-]; eauto].
  destruct (read_prop _ v "format"); [done|].
  destruct (read_prop _ v "errorLimit"); [done|].
  intros [= <-]. eauto.
Qed.

(** The values that the constructor reads from the options are those of
    the caller's store. *)
Lemma read_prop_prepared path appOptions h h1 h2 vo a v k x y :
  validator_options_set path appOptions h h1 vo →
  application_obtained appOptions h1 h2 a →
  k ≠ "apiSpec" →
  read_prop h v k = inr x → read_prop h2 v k = inr y → y = x.
Proof.
  intros Hset Happ Hk Hx Hy.
  destruct (validator_options_set_read _ _ _ _ _ _ _ _ Hset Hx) as (x' & Hx' & Heq).
  apply (application_obtained_read _ _ _ _ _ _ _ Happ) in Hx'.
  rewrite Hx' in Hy. injection Hy as <-. by apply Heq.
Qed.

(** ** The claims about construction *)

(** The chain of the application of a constructed instance: what it was,
    then the pipeline. *)
Lemma constructed_chain path appOptions customs jt h h' inst :
  new_ExpressAppConfig path appOptions customs jt h = (h', inr inst) →
  ∃ corsOptions format skip swaggerDoc uiOptions,
    read_prop h appOptions "cors" = inr corsOptions ∧
    read_prop h appOptions "swaggerUI" = inr uiOptions ∧
    chain_of h' (app inst) =
      Some (default [] (chain_of h (app inst)) ++
            pipeline corsOptions (parserLimit inst) (Morgan format skip)
              (default "application/json" jt) swaggerDoc uiOptions
              (openApiValidatorOptions inst) (default [] customs)
              (routingOptions inst)).
Proof.
  intros Hnew.
  apply new_ExpressAppConfig_run in Hnew as (st' & r & Hrun & -> & Hres).
  destruct r as [e|[]]; [done|]. injection Hres as ->.
  apply constructor_run in Hrun
    as [(? & _)|(routing & limit & h1 & h2 & Hro & _ & _ & _ & _ & Hset & Happ & Hreg)];
    [done|].
  apply registered in Hreg
    as (l & ps & c & co & text & doc & logging & logger & ui
        & Ha & Hl & Hcors & Hfs & Hyaml & Hlogging & Hlogger & Hui & Hchain).
  apply configureLogger_Morgan in Hlogger as (format & skip & ->).
  destruct (read_prop_inr _ _ _ _ Hro) as [_ Hall].
  destruct (Hall "cors") as [co0 Hco0]. destruct (Hall "swaggerUI") as [ui0 Hui0].
  assert (co = co0) as ->
    by (eapply (read_prop_prepared _ _ _ _ _ _ _ _ "cors");
        [exact Hset|exact Happ|discriminate|exact Hco0|exact Hcors]).
  assert (ui = ui0) as ->
    by (eapply (read_prop_prepared _ _ _ _ _ _ _ _ "swaggerUI");
        [exact Hset|exact Happ|discriminate|exact Hui0|exact Hui]).
  exists co0, format, skip, doc, ui0. do 2 (split; [done|]).
  rewrite (chain_before _ _ _ _ _ _ _ _ _ _ Hset Happ Ha Hl).
  by rewrite Ha.
Qed.

(** C1: in every successful construction, the chain of the application
    handle afterwards is its chain before (empty for a new handle) followed
    by: the CORS policy, the four body parsers (urlencoded, text, json,
    raw), the request logger, the JSON, urlencoded and cookie parsers, the
    documentation UI, the schema validator, the parameter normalizer, the
    caller's custom middleware in list order, the router and the error
    handler.  In particular the validator and the parameter normalizer are
    at places 10 and 11 of what is added, the [i]-th custom middleware at
    place [12 + i], and the router right after the last of them. *)
Theorem registration_order path appOptions customs jt h h' inst :
  new_ExpressAppConfig path appOptions customs jt h = (h', inr inst) →
  ∃ chain corsOptions format skip swaggerDoc uiOptions,
    chain_of h' (app inst) = Some chain ∧
    chain =
      default [] (chain_of h (app inst)) ++
      [ Cors corsOptions;
        BodyParserUrlencoded (parserLimit inst);
        BodyParserText (parserLimit inst);
        BodyParserJson (parserLimit inst);
        BodyParserRaw "application/pdf" (parserLimit inst);
        Morgan format skip;
        ExpressJson (default "application/json" jt);
        ExpressUrlencoded false;
        CookieParser;
        SwaggerUIStatic swaggerDoc uiOptions;
        OpenApiValidatorMiddleware (openApiValidatorOptions inst);
        CheckParameters ] ++
      map Custom (default [] customs) ++
      [ SwaggerRouterInitialize (routingOptions inst); ErrorHandler ] ∧
    let n := length (default [] (chain_of h (app inst))) in
    chain !! (n + 10)%nat =
      Some (OpenApiValidatorMiddleware (openApiValidatorOptions inst)) ∧
    chain !! (n + 11)%nat = Some CheckParameters ∧
    (∀ i m, default [] customs !! i = Some m →
            chain !! (n + 12 + i)%nat = Some (Custom m)) ∧
    chain !! (n + 12 + length (default [] customs))%nat =
      Some (SwaggerRouterInitialize (routingOptions inst)).
Proof.
  intros Hnew.
  destruct (constructed_chain _ _ _ _ _ _ _ Hnew)
    as (co & format & skip & doc & ui & _ & _ & Hchain).
  eexists _, co, format, skip, doc, ui.
  split; [exact Hchain|]. split; [reflexivity|].
  set (before := default [] (chain_of h (app inst))).
  cbv zeta. unfold pipeline.
  repeat split.
  - rewrite lookup_app_r by lia.
    by replace (length before + 10 - length before)%nat with 10%nat by lia.
  - rewrite lookup_app_r by lia.
    by replace (length before + 11 - length before)%nat with 11%nat by lia.
  - intros i m Hi. rewrite lookup_app_r by lia.
    replace (length before + 12 + i - length before)%nat
      with (12 + i)%nat by lia.
    simpl. rewrite lookup_app_l.
    + by rewrite list_lookup_fmap, Hi.
    + rewrite length_map. by eapply lookup_lt_Some.
  - rewrite lookup_app_r by lia.
    replace (length before + 12 + length (default [] customs) - length before)%nat
      with (12 + length (default [] customs))%nat by lia.
    simpl. rewrite lookup_app_r by (rewrite length_map; lia).
    rewrite length_map.
    by replace (length (default [] customs) - length (default [] customs))%nat
      with 0%nat by lia.
Qed.

(** The application handle of a constructed instance is an application in
    the store. *)
Lemma constructed_app path appOptions customs jt h h' inst :
  new_ExpressAppConfig path appOptions customs jt h = (h', inr inst) →
  ∃ l ps chain, app inst = VRef l ∧ h' !! l = Some (Object ps (Some chain)).
Proof.
  intros Hnew.
  destruct (constructed_chain _ _ _ _ _ _ _ Hnew)
    as (? & ? & ? & ? & ? & _ & _ & Hchain).
  apply chain_of_Some in Hchain as (l & ps & Ha & Hl). eauto.
Qed.

(** C8: for a constructed instance, [getApp] returns the application handle
    of the instance and leaves the state (the store and every field of the
    instance) as it is, in whatever store it is called; so does a second
    call; the handle is neither [undefined] nor [null]: it refers to an
    application. *)
Theorem getApp_idempotent path appOptions customs jt h h' inst :
  new_ExpressAppConfig path appOptions customs jt h = (h', inr inst) →
  (∀ store,
     getApp (State store inst) = (State store inst, inr (app inst)) ∧
     (getApp ;; getApp) (State store inst) = (State store inst, inr (app inst))) ∧
  not_undefined (app inst) = true ∧
  ∃ chain, chain_of h' (app inst) = Some chain.
Proof.
  intros Hnew. split; [by intros store|].
  destruct (constructed_app _ _ _ _ _ _ _ Hnew) as (l & ps & chain & -> & Hl).
  split; [done|]. exists chain. simpl. by rewrite Hl.
Qed.

(** C7: in a successful construction whose options carry no [parserLimit],
    the limit of the instance is the string ["100kb"], and that value is
    the limit of each of the four body parsers registered (urlencoded,
    text, json, raw), which follow the CORS policy in the chain. *)
Theorem parserLimit_default path appOptions customs jt h h' inst :
  new_ExpressAppConfig path appOptions customs jt h = (h', inr inst) →
  read_prop h appOptions "parserLimit" = inr VUndefined →
  parserLimit inst = VStr "100kb" ∧
  ∃ before corsOptions rest,
    chain_of h' (app inst) =
      Some (before ++
            [ Cors corsOptions;
              BodyParserUrlencoded (VStr "100kb");
              BodyParserText (VStr "100kb");
              BodyParserJson (VStr "100kb");
              BodyParserRaw "application/pdf" (VStr "100kb") ] ++ rest).
Proof.
  intros Hnew Hlimit.
  destruct (constructed_chain _ _ _ _ _ _ _ Hnew)
    as (co & format & skip & doc & ui & _ & _ & Hchain).
  apply new_ExpressAppConfig_run in Hnew as (st' & r & Hrun & -> & Hres).
  destruct r as [e|[]]; [done|]. injection Hres as ->.
  apply constructor_run in Hrun
    as [(? & _)|(routing & limit & h1 & h2 & _ & Hlim & _ & Hp & _)]; [done|].
  rewrite Hlimit in Hlim. injection Hlim as <-.
  split; [exact Hp|].
  rewrite Hp in Hchain. rewrite Hchain. unfold pipeline.
  eexists _, co, _. reflexivity.
Qed.

(** Lines 67-79 and line 38 leave every object of the store in place,
    with its chain, and with its properties but for the [apiSpec] of the
    validator options. *)
Lemma prepared_lookup path appOptions h h1 h2 vo a l o :
  validator_options_set path appOptions h h1 vo →
  application_obtained appOptions h1 h2 a →
  h !! l = Some o →
  ∃ o2, h2 !! l = Some o2 ∧ stack o2 = stack o ∧
        ∀ k, k ≠ "apiSpec" ∨
             read_prop h appOptions "openApiValidator" ≠ inr (VRef l) →
             props o2 !! k = props o !! k.
Proof.
  intros Hset Happ Hl.
  assert (∃ o1, h1 !! l = Some o1 ∧ stack o1 = stack o ∧
                ∀ k, k ≠ "apiSpec" ∨
                     read_prop h appOptions "openApiValidator" ≠ inr (VRef l) →
                     props o1 !! k = props o !! k) as (o1 & Hl1 & Hs & Hp).
  { destruct Hset as [v _ _|lv ov _ Hv Hlv].
    - exists o. rewrite lookup_insert_ne; [done|].
      intros <-. by rewrite fresh_lookup in Hl.
    - destruct (decide (lv = l)) as [->|Hne].
      + rewrite lookup_insert_eq. eexists. split; [done|].
        rewrite Hl in Hlv. injection Hlv as <-. split; [done|].
        intros k [Hk|Hk]; [|done]. simpl. by rewrite lookup_insert_ne.
      + exists o. by rewrite lookup_insert_ne. }
  exists o1. split; [|done].
  by apply (application_obtained_lookup _ _ _ _ _ _ Happ).
Qed.

(** What the class itself writes before line 40 is the [apiSpec] of the
    validator options. *)
Lemma prepared_read path appOptions h h1 h2 vo a v k x :
  validator_options_set path appOptions h h1 vo →
  application_obtained appOptions h1 h2 a →
  k ≠ "apiSpec" ∨ read_prop h appOptions "openApiValidator" ≠ inr v →
  read_prop h v k = inr x → read_prop h2 v k = inr x.
Proof.
  intros Hset Happ Hk Hread.
  destruct v as [| | | | |l]; try done. simpl in Hread |- *.
  destruct (h !! l) as [o|] eqn:Hl; [|done].
  destruct (prepared_lookup _ _ _ _ _ _ _ _ _ Hset Happ Hl) as (o2 & -> & _ & Hp).
  by rewrite Hp.
Qed.

(** After lines 67-79 the validator options of the instance have the
    definition path for [apiSpec]. *)
Lemma validator_options_set_apiSpec path appOptions h h1 vo :
  validator_options_set path appOptions h h1 vo →
  read_prop h1 vo "apiSpec" = inr (VStr path).
Proof.
  intros [v _ _|l o _ _ _]; simpl; rewrite lookup_insert_eq; simpl.
  - by rewrite lookup_singleton_eq.
  - by rewrite lookup_insert_eq.
Qed.

(** The validator options of the instance, from what the options carry. *)
Lemma validator_options_set_for path appOptions h h1 vo v :
  validator_options_set path appOptions h h1 vo →
  read_prop h appOptions "openApiValidator" = inr v →
  vo = validator_options_for h v.
Proof.
  unfold validator_options_for.
  intros [v' Hv' Hfalsy|l o Ht Hv' Hl] Hv.
  - destruct (truthy appOptions) eqn:Ht.
    + rewrite Hv in Hv'. injection Hv' as <-. by rewrite Hfalsy.
    + destruct appOptions; try done; simpl in Hv; by injection Hv as <-.
  - rewrite Hv in Hv'. by injection Hv' as ->.
Qed.

(** From line 40 on, a property that the collaborators leave alone reads
    as it did. *)
Lemma constructor_read path appOptions customs jt h h1 h2 t h' r v k x :
  validator_options_set path appOptions h h1 (openApiValidatorOptions t) →
  application_obtained appOptions h1 h2 (app t) →
  read_prop h appOptions "routing" = inr (routingOptions t) →
  registration path appOptions customs jt h2 t h' r →
  collaborators_leave h appOptions v k →
  read_prop h2 v k = inr x → read_prop h' v k = inr x.
Proof.
  intros Hset Happ Hrouting Hreg Hleave Hread.
  destruct (read_prop_inr _ _ _ _ Hrouting) as [_ Hall].
  destruct (Hall "swaggerUI") as [ui Hui].
  destruct (Hall "openApiValidator") as [validator Hvalidator].
  destruct (Hleave _ _ _ Hui Hvalidator Hrouting) as (Hleave1 & Hleave2 & Hleave3).
  rewrite <- (validator_options_set_for _ _ _ _ _ _ Hset Hvalidator) in Hleave2.
  eapply registration_read; [|done..].
  intros doc ui' Hui'.
  assert (ui' = ui) as ->; [|done].
  eapply (prepared_read _ _ _ _ _ _ _ _ "swaggerUI") in Hui;
    [|done..|by left]. congruence.
Qed.

(** The validator options keep the definition path to the end, when the
    collaborators do not write it. *)
Lemma prepared_apiSpec path appOptions customs jt h h1 h2 t h' r :
  validator_options_set path appOptions h h1 (openApiValidatorOptions t) →
  application_obtained appOptions h1 h2 (app t) →
  read_prop h appOptions "routing" = inr (routingOptions t) →
  registration path appOptions customs jt h2 t h' r →
  collaborators_leave h appOptions (openApiValidatorOptions t) "apiSpec" →
  read_prop h' (openApiValidatorOptions t) "apiSpec" = inr (VStr path).
Proof.
  intros Hset Happ Hrouting Hreg Hleave.
  eapply constructor_read; [done..|].
  eapply application_obtained_read; [done|].
  by eapply validator_options_set_apiSpec.
Qed.

(** Whatever the outcome, a property that the collaborators leave alone
    reads after the construction as it did before, unless it is the
    [apiSpec] of the validator options. *)
Lemma constructed_read path appOptions customs jt h h' res v k x :
  new_ExpressAppConfig path appOptions customs jt h = (h', res) →
  collaborators_leave h appOptions v k →
  k ≠ "apiSpec" ∨ read_prop h appOptions "openApiValidator" ≠ inr v →
  read_prop h v k = inr x → read_prop h' v k = inr x.
Proof.
  intros Hnew Hleave Hk Hx.
  apply new_ExpressAppConfig_run in Hnew as (st' & r & Hrun & -> & _).
  apply constructor_run in Hrun
    as [(_ & -> & _)
       |(routing & limit & h1 & h2 & Hro & _ & Hrouting & _ & _
         & Hset & Happ & Hreg)];
    [done|].
  rewrite <- Hrouting in Hro.
  eapply constructor_read; [done..|].
  by eapply prepared_read.
Qed.

(** C6: in a successful construction, when the options carry no validator
    options (the field is absent, or falsy), the validator options of the
    instance are a new object, one that the caller's store did not have;
    when they carry validator options, the validator options of the
    instance are those very options.  Either way the validator middleware
    is made with them, and their [apiSpec] is the definition path: the
    class writes it on line 70 or 78, and it still reads so after the
    construction, given that no collaborator writes the [apiSpec] of these
    options. *)
Theorem validator_options_used path appOptions customs jt h h' inst v :
  new_ExpressAppConfig path appOptions customs jt h = (h', inr inst) →
  read_prop h appOptions "openApiValidator" = inr v →
  collaborators_leave h appOptions (openApiValidatorOptions inst) "apiSpec" →
  (truthy v = false →
     ∃ l, openApiValidatorOptions inst = VRef l ∧ h !! l = None) ∧
  (truthy v = true → openApiValidatorOptions inst = v) ∧
  read_prop h' (openApiValidatorOptions inst) "apiSpec" = inr (VStr path) ∧
  ∃ chain,
    chain_of h' (app inst) = Some chain ∧
    OpenApiValidatorMiddleware (openApiValidatorOptions inst) ∈ chain.
Proof.
  intros Hnew Hv Hleave.
  destruct (constructed_chain _ _ _ _ _ _ _ Hnew)
    as (co & format & skip & doc & ui & _ & _ & Hchain).
  apply new_ExpressAppConfig_run in Hnew as (st' & r & Hrun & -> & Hres).
  destruct r as [e|[]]; [done|]. injection Hres as ->.
  apply constructor_run in Hrun
    as [(? & _)|(routing & limit & h1 & h2 & Hro & _ & Hrouting & _ & _
                 & Hset & Happ & Hreg)];
    [done|].
  rewrite <- Hrouting in Hro.
  pose proof (prepared_apiSpec _ _ _ _ _ _ _ _ _ _ Hset Happ Hro Hreg Hleave)
    as Hspec.
  split; [|split; [|split]].
  - intros Hfalsy.
    inversion Hset as [v' Hv' _ Hh1 Hvo|l o Ht Hv' Hl Hh1 Hvo].
    + exists (fresh (dom h)). split; [done|]. apply fresh_lookup.
    + rewrite Hv in Hv'. by injection Hv' as ->.
  - intros Htruthy.
    inversion Hset as [v' Hv' Hfalsy Hh1 Hvo|l o Ht Hv' Hl Hh1 Hvo].
    + destruct (truthy appOptions) eqn:Ht.
      * rewrite Hv in Hv'. injection Hv' as <-. congruence.
      * destruct appOptions; try done; simpl in Hv; injection Hv as <-; done.
    + rewrite Hv in Hv'. by injection Hv' as ->.
  - exact Hspec.
  - eexists. split; [exact Hchain|]. unfold pipeline.
    rewrite !elem_of_app. right. left. rewrite !elem_of_cons. tauto.
Qed.


(** C4, as amended: when the options are well typed (their validator
    options, if any, are an object and their application, if any, is an
    application) and the file at the definition path is missing or does
    not parse, construction throws the I/O error or the parse error and
    returns no instance; line 40 has run by then, so an application handle
    given by the caller has the CORS middleware, and nothing else, added to
    the end of its chain. *)
Theorem construction_fails_on_bad_file
    path appOptions customs jt h validator given corsOptions :
  read_prop h appOptions "openApiValidator" = inr validator →
  read_prop h appOptions "app" = inr given →
  read_prop h appOptions "cors" = inr corsOptions →
  truthy validator = false ∨ is_Some (object_at h validator) →
  truthy given = false ∨ is_Some (chain_of h given) →
  fs_readFileSync path = None ∨
    (∃ text, fs_readFileSync path = Some text ∧ jsyaml_load text = None) →
  ∃ h',
    new_ExpressAppConfig path appOptions customs jt h =
      (h', inl match fs_readFileSync path with
               | None => IOError
               | Some _ => YAMLException
               end) ∧
    ∀ c, chain_of h given = Some c →
         chain_of h' given = Some (c ++ [Cors corsOptions]).
Proof.
  intros Hv Hg Hc Hvalidator Hgiven Hfile.
  destruct (new_ExpressAppConfig path appOptions customs jt h) as [h' res] eqn:Hnew.
  exists h'.
  apply new_ExpressAppConfig_run in Hnew as (st' & r & Hrun & -> & ->).
  destruct (read_prop_inr _ _ _ _ Hv) as [_ Hall].
  apply constructor_run in Hrun
    as [(_ & _ & [Hbad|(v & Hv' & Htv & Hnone)])
       |(routing & limit & h1 & h2 & _ & _ & _ & _ & _ & Hset & Happ & Hreg)].
  { destruct (Hall "routing") as [x Hx]. congruence. }
  { rewrite Hv in Hv'. injection Hv' as <-.
    destruct Hvalidator as [Hf|[o Ho]]; congruence. }
  (* the application of the instance is an application in [h2] *)
  assert (read_prop h1 appOptions "app" = inr given) as Hg1.
  { destruct (validator_options_set_read _ _ _ _ _ _ _ _ Hset Hg) as (x & Hx & Heq).
    by rewrite Hx, Heq. }
  assert (∃ l ps c, app (this st') = VRef l ∧
                    h2 !! l = Some (Object ps (Some c)) ∧
                    (∀ c0, chain_of h given = Some c0 → given = VRef l ∧ c0 = c))
    as (l & ps & c & Ha & Hl & Hsame).
  { inversion Happ as [given' Hg' Ht Hh2 Ha|given' Hg' Ht Hh2 Ha].
    - subst h2. rewrite Hg1 in Hg'. injection Hg' as Heq.
      destruct Hgiven as [Hf|[c Hchain]]; [congruence|].
      pose proof (validator_options_set_chain _ _ _ _ _ _ _ Hset Hchain) as Hc1.
      apply chain_of_Some in Hc1 as (l & ps & Hgl & Hl).
      exists l, ps, c. split; [congruence|]. split; [done|].
      intros c0 Hc0. split; [done|]. congruence.
    - rewrite Hg1 in Hg'. injection Hg' as <-. subst h2.
      exists (fresh (dom h1)), ∅, []. split; [done|].
      split; [apply lookup_insert_eq|].
      intros c0 Hc0. apply chain_of_Some in Hc0 as (? & ? & -> & _). done. }
  assert (read_prop h2 appOptions "cors" = inr corsOptions) as Hc2.
  { destruct (validator_options_set_read _ _ _ _ _ _ _ _ Hset Hc) as (x & Hx & Heq).
    apply (application_obtained_read _ _ _ _ _ _ _ Happ). by rewrite Hx, Heq. }
  inversion Hreg as
    [Hnone Hh' Hr
    |l' ps' c' co Ha' Hl' Hco Hfs Hh' Hr
    |l' ps' c' co text Ha' Hl' Hco Hfs Hyaml Hh' Hr
    |l' ps' c' co text doc logging e Ha' Hl' Hco Hfs Hyaml _ _ Hh' Hr
    |l' ps' c' co text doc logging logger ui h'' r' Ha' Hl' Hco Hfs Hyaml
       _ _ _ _ Hh' Hr].
  - rewrite <- Hh', Ha in Hnone. simpl in Hnone. by rewrite Hl in Hnone.
  - subst r. rewrite Hfs. split; [done|].
    rewrite Ha in Ha'. injection Ha' as <-.
    rewrite Hl in Hl'. injection Hl' as <- <-.
    rewrite Hc2 in Hco. injection Hco as <-.
    intros c0 Hc0. destruct (Hsame c0 Hc0) as [-> ->].
    simpl. by rewrite lookup_insert_eq.
  - subst r. rewrite Hfs. split; [done|].
    rewrite Ha in Ha'. injection Ha' as <-.
    rewrite Hl in Hl'. injection Hl' as <- <-.
    rewrite Hc2 in Hco. injection Hco as <-.
    intros c0 Hc0. destruct (Hsame c0 Hc0) as [-> ->].
    simpl. by rewrite lookup_insert_eq.
  - destruct Hfile as [Hnone|(text' & Hfs' & Hyaml')]; congruence.
  - destruct Hfile as [Hnone|(text' & Hfs' & Hyaml')]; congruence.
Qed.


(** ** More about the logger *)

(** Whether [typeof] is ['string'] or ['number'] shows on the value. *)
Lemma typeof_is_string h v :
  String.eqb (typeof h v) "string" = match v with VStr _ => true | _ => false end.
Proof.
  destruct v as [| | | | |l]; try reflexivity. simpl.
  by destruct (h !! l) as [[ps [c|]]|].
Qed.

Lemma typeof_is_number h v :
  String.eqb (typeof h v) "number" = match v with VNum _ => true | _ => false end.
Proof.
  destruct v as [| | | | |l]; try reflexivity. simpl.
  by destruct (h !! l) as [[ps [c|]]|].
Qed.

(** X1: the format of the logger is the [format] of the options when that
    is a string; any other [format] (absent, a number, an object) is passed
    over and the logger gets ['dev']. *)
Theorem logger_format st loggerOptions format :
  read_prop (heap st) loggerOptions "format" = inr format →
  ∃ skip,
    configureLogger loggerOptions st =
    (st, inr (Morgan match format with
                     | VStr _ => format
                     | _ => VStr "dev"
                     end skip)).
Proof.
  intros Hformat.
  destruct (read_prop_inr _ _ _ _ Hformat) as [_ Hall].
  destruct (Hall "errorLimit") as [el Hel].
  rewrite (configureLogger_readable _ _ _ _ Hformat Hel), typeof_is_string.
  destruct format; eexists; reflexivity.
Qed.

(** X2: logging options that are not an object ([undefined], [null], a
    boolean, a number, a string such as ['combined']) configure nothing:
    the logger has the format ['dev'] and no skip function, and nothing is
    thrown. *)
Theorem logger_options_not_an_object st loggerOptions :
  (∀ l, loggerOptions ≠ VRef l) →
  configureLogger loggerOptions st = (st, inr (Morgan (VStr "dev") None)).
Proof.
  intros Hprim. destruct loggerOptions as [| | | | |l]; try reflexivity.
  by destruct (Hprim l).
Qed.

Lemma configureLogger_skip loggerOptions st st' format skip :
  configureLogger loggerOptions st = (st', inr (Morgan format (Some skip))) →
  skip = SkipBelowErrorLimit loggerOptions.
Proof.
  destruct st as [h t].
  unfold configureLogger, get_prop, mbind, mret, M_bind, M_ret, get_heap, lift.
  cbv [heap].
  destruct (not_undefined loggerOptions); [|by intros [=]].
  destruct (read_prop _ loggerOptions "format"); [done|].
  destruct (read_prop _ loggerOptions "errorLimit"); [done|].
  destruct (_ && (_ || _)); [|by intros [=]]. by intros [= _ _ <-].
Qed.

(** X3: the skip function reads [errorLimit] off the options object each
    time it runs.  In a later store, where the caller has changed the
    [errorLimit] of the same object, the logger skips below the new
    threshold; where the caller has taken the [errorLimit] away, it skips
    nothing. *)
Theorem skip_follows_options st st' loggerOptions format skip :
  configureLogger loggerOptions st = (st', inr (Morgan format (Some skip))) →
  ∀ (later : gmap loc object) res,
    (∀ errorLimit T,
       read_prop later loggerOptions "errorLimit" = inr errorLimit →
       reads_as_threshold errorLimit T →
       call_skip later skip res = inr (statusCode res <? T)) ∧
    (read_prop later loggerOptions "errorLimit" = inr VUndefined →
     call_skip later skip res = inr false).
Proof.
  intros Hconf later res. apply configureLogger_skip in Hconf as ->.
  split.
  - intros errorLimit T Hel HT. unfold call_skip. rewrite Hel.
    by rewrite (reads_as_threshold_parseInt _ _ HT), number_lt_of_Z.
  - intros Hel. unfold call_skip. by rewrite Hel.
Qed.

(** ** More about the error handler *)

(** X4: a failure that is a primitive value (a thrown string, number or
    boolean) is answered with status 500 and a body whose [message] and
    [errors] are both [undefined]: the value thrown is not sent. *)
Theorem errorHandler_primitive st error :
  not_undefined error = true →
  (∀ l, error ≠ VRef l) →
  errorHandler error st =
    (st, inr {| sent_status := VNum (number_of_Z 500);
                sent_json := [("message", VUndefined); ("errors", VUndefined)] |}).
Proof.
  intros Hdef Hprim. destruct error as [| | | | |l]; try done.
  by destruct (Hprim l).
Qed.


(** ** More about construction *)

Lemma configureLogger_throws v st e :
  (configureLogger v st).2 = inl e → e = TypeError.
Proof.
  destruct st as [h t].
  unfold configureLogger, get_prop, mbind, mret, M_bind, M_ret, get_heap, lift.
  cbv [heap].
  destruct (not_undefined v); [|done].
  destruct (read_prop h v "format") as [e1|f] eqn:Hf.
  { apply read_prop_inl in Hf as [-> _]. by intros [= <-]. }
  destruct (read_prop h v "errorLimit") as [e2|el] eqn:Hel; [|done].
  apply read_prop_inl in Hel as [-> _]. by intros [= <-].
Qed.

(** An application found after lines 67-79 was one before them. *)
Lemma validator_options_set_chain_inv path appOptions h h1 vo l ps c :
  validator_options_set path appOptions h h1 vo →
  h1 !! l = Some (Object ps (Some c)) →
  chain_of h (VRef l) = Some c.
Proof.
  intros Hset Hl. simpl.
  destruct Hset as [v _ _|lv ov _ _ Hlv].
  - destruct (decide (fresh (dom h) = l)) as [<-|Hne].
    + by rewrite lookup_insert_eq in Hl.
    + rewrite lookup_insert_ne in Hl by done. by rewrite Hl.
  - destruct (decide (lv = l)) as [->|Hne].
    + rewrite lookup_insert_eq in Hl. injection Hl as _ Hs. by rewrite Hlv, Hs.
    + rewrite lookup_insert_ne in Hl by done. by rewrite Hl.
Qed.

(** What lines 67-79 leave free was free. *)
Lemma validator_options_set_None path appOptions h h1 vo l :
  validator_options_set path appOptions h h1 vo →
  h1 !! l = None → h !! l = None.
Proof.
  intros Hset Hl1.
  destruct Hset as [v _ _|lv ov _ _ Hlv].
  - destruct (decide (fresh (dom h) = l)) as [<-|Hne].
    + by rewrite lookup_insert_eq in Hl1.
    + by rewrite lookup_insert_ne in Hl1.
  - destruct (decide (lv = l)) as [->|Hne].
    + by rewrite lookup_insert_eq in Hl1.
    + by rewrite lookup_insert_ne in Hl1.
Qed.

(** A successful construction, taken apart. *)
Lemma constructed path appOptions customs jt h h' inst :
  new_ExpressAppConfig path appOptions customs jt h = (h', inr inst) →
  ∃ h1 h2 l ps c corsOptions text swaggerDoc logging logger uiOptions,
    (∀ k, ∃ x, read_prop h appOptions k = inr x) ∧
    read_prop h appOptions "routing" = inr (routingOptions inst) ∧
    (∃ limit, read_prop h appOptions "parserLimit" = inr limit ∧
              parserLimit inst = js_or limit (VStr "100kb")) ∧
    definitionPath inst = VStr path ∧
    validator_options_set path appOptions h h1 (openApiValidatorOptions inst) ∧
    application_obtained appOptions h1 h2 (app inst) ∧
    app inst = VRef l ∧
    h2 !! l = Some (Object ps (Some c)) ∧
    read_prop h2 appOptions "cors" = inr corsOptions ∧
    fs_readFileSync path = Some text ∧
    jsyaml_load text = Some swaggerDoc ∧
    read_prop h2 appOptions "logging" = inr logging ∧
    (configureLogger logging (State h2 inst)).2 = inr logger ∧
    read_prop h2 appOptions "swaggerUI" = inr uiOptions ∧
    chain_of h' (VRef l) =
      Some (c ++
            pipeline corsOptions (parserLimit inst) logger
              (default "application/json" jt) swaggerDoc uiOptions
              (openApiValidatorOptions inst) (default [] customs)
              (routingOptions inst)).
Proof.
  intros Hnew.
  apply new_ExpressAppConfig_run in Hnew as (st' & r & Hrun & -> & Hres).
  destruct r as [e|[]]; [done|]. injection Hres as ->.
  apply constructor_run in Hrun
    as [(? & _)|(routing & limit & h1 & h2 & Hro & Hli & Hr & Hp & Hd
                 & Hset & Happ & Hreg)]; [done|].
  destruct (read_prop_inr _ _ _ _ Hro) as [_ Hall].
  apply registered in Hreg
    as (l & ps & c & co & text & doc & logging & logger & ui
        & Ha & Hl & Hcors & Hfs & Hyaml & Hlogging & Hlogger & Hui & Hchain).
  exists h1, h2, l, ps, c, co, text, doc, logging, logger, ui.
  split; [done|]. split; [by rewrite Hr|]. split; [by exists limit|].
  done.
Qed.

(** An application that the options give is the application of the
    instance. *)
Lemma constructed_given_app path appOptions customs jt h h' inst given :
  new_ExpressAppConfig path appOptions customs jt h = (h', inr inst) →
  read_prop h appOptions "app" = inr given →
  truthy given = true →
  app inst = given ∧ ∃ chain, chain_of h given = Some chain.
Proof.
  intros Hnew Hgiven Htruthy.
  destruct (constructed _ _ _ _ _ _ _ Hnew)
    as (h1 & h2 & l & ps & c & co & text & doc & logging & logger & ui
        & _ & _ & _ & _ & Hset & Happ & Ha & Hl & _).
  assert (read_prop h1 appOptions "app" = inr given) as Hg1.
  { destruct (validator_options_set_read _ _ _ _ _ _ _ _ Hset Hgiven)
      as (x & Hx & Heq). by rewrite Hx, Heq. }
  remember (app inst) as a eqn:Hainst.
  inversion Happ as [given' Hg' Ht Hh2 Hgiven'|given' Hg' Ht Hh2 Hgiven'].
  - subst h2 given'. rewrite Hg1 in Hg'. injection Hg' as <-.
    split; [done|]. exists c. rewrite Ha.
    by apply (validator_options_set_chain_inv _ _ _ _ _ _ _ _ Hset Hl).
  - rewrite Hg1 in Hg'. injection Hg' as <-. congruence.
Qed.

(** X6: the constructor makes a new application only when the options
    carry none: the application of the instance is the caller's own
    handle when [appOptions.app] is truthy, and that handle was an
    application before; otherwise it is an object that the caller's store
    did not have. *)
Theorem application_of_instance path appOptions customs jt h h' inst given :
  new_ExpressAppConfig path appOptions customs jt h = (h', inr inst) →
  read_prop h appOptions "app" = inr given →
  (truthy given = true →
     app inst = given ∧ ∃ chain, chain_of h given = Some chain) ∧
  (truthy given = false →
     ∃ l, app inst = VRef l ∧ h !! l = None).
Proof.
  intros Hnew Hgiven.
  destruct (constructed _ _ _ _ _ _ _ Hnew)
    as (h1 & h2 & l & ps & c & co & text & doc & logging & logger & ui
        & _ & _ & _ & _ & Hset & Happ & Ha & Hl & _).
  assert (read_prop h1 appOptions "app" = inr given) as Hg1.
  { destruct (validator_options_set_read _ _ _ _ _ _ _ _ Hset Hgiven)
      as (x & Hx & Heq). by rewrite Hx, Heq. }
  remember (app inst) as a eqn:Hainst.
  inversion Happ as [given' Hg' Ht Hh2 Hgiven'|given' Hg' Ht Hh2 Hgiven'].
  - subst h2 given'. rewrite Hg1 in Hg'. injection Hg' as <-.
    split; [|congruence]. intros _. split; [done|].
    exists c. rewrite Ha.
    by apply (validator_options_set_chain_inv _ _ _ _ _ _ _ _ Hset Hl).
  - rewrite Hg1 in Hg'. injection Hg' as <-.
    split; [congruence|]. intros _. exists (fresh (dom h1)).
    split; [done|].
    apply (validator_options_set_None _ _ _ _ _ _ Hset), fresh_lookup.
Qed.

(** X7: whether it succeeds or throws, the constructor leaves the chain of
    every application of the caller's store as it was, except the one the
    options name as [app]. *)
Theorem other_chains_kept path appOptions customs jt h h' res a chain :
  new_ExpressAppConfig path appOptions customs jt h = (h', res) →
  chain_of h a = Some chain →
  read_prop h appOptions "app" ≠ inr a →
  chain_of h' a = Some chain.
Proof.
  intros Hnew Hchain Hother.
  apply new_ExpressAppConfig_run in Hnew as (st' & r & Hrun & -> & _).
  apply constructor_run in Hrun
    as [(_ & -> & _)
       |(routing & limit & h1 & h2 & Hro & _ & _ & _ & _ & Hset & Happ & Hreg)];
    [done|].
  apply chain_of_Some in Hchain as (l & ps & -> & Hl).
  destruct (prepared_lookup _ _ _ _ _ _ _ _ _ Hset Happ Hl)
    as (o2 & Hl2 & Hs2 & _).
  destruct (registration_lookup _ _ _ _ _ _ _ _ _ _ Hreg Hl2)
    as (o' & Hl' & Hs').
  simpl. rewrite Hl', Hs', Hs2; [done|].
  intros Ha. apply Hother.
  destruct (read_prop_inr _ _ _ _ Hro) as [_ Hall].
  destruct (Hall "app") as [given Hgiven]. rewrite Hgiven. f_equal.
  destruct (validator_options_set_read _ _ _ _ _ _ _ _ Hset Hgiven)
    as (x & Hx & Heq). rewrite Heq in Hx by done.
  remember (app (this st')) as a' eqn:Ha'.
  inversion Happ as [given' Hg' Ht Hh2 Hgiven'|given' Hg' Ht Hh2 Hgiven'].
  - subst h2 given'. rewrite Hx in Hg'. injection Hg' as ->. done.
  - exfalso. rewrite Ha in Hgiven'. injection Hgiven' as Hfresh.
    assert (h1 !! l = None) as Hnone by (rewrite <- Hfresh; apply fresh_lookup).
    apply (validator_options_set_None _ _ _ _ _ _ Hset) in Hnone. congruence.
Qed.


(** X9: in a successful construction the limit of the four body parsers is
    the [parserLimit] of the options when that is truthy, and ["100kb"]
    when it is falsy, be it absent, [null], [0] or the empty string. *)
Theorem parserLimit_used path appOptions customs jt h h' inst limit :
  new_ExpressAppConfig path appOptions customs jt h = (h', inr inst) →
  read_prop h appOptions "parserLimit" = inr limit →
  let used := if truthy limit then limit else VStr "100kb" in
  parserLimit inst = used ∧
  ∃ before corsOptions rest,
    chain_of h' (app inst) =
      Some (before ++
            [ Cors corsOptions;
              BodyParserUrlencoded used; BodyParserText used;
              BodyParserJson used; BodyParserRaw "application/pdf" used ] ++
            rest).
Proof.
  intros Hnew Hlimit used.
  destruct (constructed_chain _ _ _ _ _ _ _ Hnew)
    as (co & format & skip & doc & ui & _ & _ & Hchain).
  destruct (constructed _ _ _ _ _ _ _ Hnew)
    as (_ & _ & _ & _ & _ & _ & _ & _ & _ & _ & _
        & _ & _ & (limit' & Hlimit' & Hp) & _).
  rewrite Hlimit in Hlimit'. injection Hlimit' as <-.
  assert (parserLimit inst = used) as Hused by exact Hp.
  split; [done|].
  rewrite Hchain, Hused. unfold pipeline. eexists _, co, _. reflexivity.
Qed.

(** X10: in a successful construction the file at the definition path has
    been read and parsed, and the documentation UI is made with the
    document parsed and with [appOptions.swaggerUI]; the router is made
    with [appOptions.routing]; the instance keeps the path. *)
Theorem collaborators_configured path appOptions customs jt h h' inst :
  new_ExpressAppConfig path appOptions customs jt h = (h', inr inst) →
  ∃ text swaggerDoc uiOptions chain,
    fs_readFileSync path = Some text ∧
    jsyaml_load text = Some swaggerDoc ∧
    read_prop h appOptions "swaggerUI" = inr uiOptions ∧
    read_prop h appOptions "routing" = inr (routingOptions inst) ∧
    definitionPath inst = VStr path ∧
    chain_of h' (app inst) = Some chain ∧
    SwaggerUIStatic swaggerDoc uiOptions ∈ chain ∧
    SwaggerRouterInitialize (routingOptions inst) ∈ chain.
Proof.
  intros Hnew.
  destruct (constructed _ _ _ _ _ _ _ Hnew)
    as (h1 & h2 & l & ps & c & co & text & doc & logging & logger & ui
        & Hall & Hro & _ & Hd & Hset & Happ & Ha & Hl & _ & Hfs & Hyaml
        & _ & _ & Hui & Hchain).
  destruct (Hall "swaggerUI") as [ui0 Hui0].
  assert (ui = ui0) as ->
    by (eapply (read_prop_prepared _ _ _ _ _ _ _ _ "swaggerUI");
        [exact Hset|exact Happ|discriminate|exact Hui0|exact Hui]).
  exists text, doc, ui0. eexists.
  do 5 (split; [done|]).
  split; [by rewrite Ha|].
  unfold pipeline. rewrite !elem_of_app, !elem_of_cons. tauto.
Qed.

(** The logger that [configureLogger] makes is the same in a store that
    reads alike. *)
Lemma configureLogger_frame v h t h2 t2 logger :
  (∀ k x, k ≠ "apiSpec" → read_prop h v k = inr x → read_prop h2 v k = inr x) →
  (configureLogger v (State h t)).2 = inr logger →
  (configureLogger v (State h2 t2)).2 = inr logger.
Proof.
  intros Hread.
  unfold configureLogger, get_prop, mbind, mret, M_bind, M_ret, get_heap, lift.
  cbv [heap].
  destruct (not_undefined v); [|done].
  destruct (read_prop h v "format") as [|f] eqn:Hf; [done|].
  destruct (read_prop h v "errorLimit") as [|el] eqn:Hel; [done|].
  rewrite (Hread "format" f ltac:(discriminate) Hf).
  rewrite (Hread "errorLimit" el ltac:(discriminate) Hel).
  cbn [snd]. by rewrite !typeof_is_string, !typeof_is_number.
Qed.

(** X11: in a successful construction the logger registered, sixth of the
    middleware added, is the one that [configureLogger] makes of
    [appOptions.logging] in the caller's store. *)
Theorem logger_registered path appOptions customs jt h h' inst logging logger t :
  new_ExpressAppConfig path appOptions customs jt h = (h', inr inst) →
  read_prop h appOptions "logging" = inr logging →
  (configureLogger logging (State h t)).2 = inr logger →
  ∃ chain,
    chain_of h' (app inst) = Some chain ∧
    chain !! (length (default [] (chain_of h (app inst))) + 5)%nat = Some logger.
Proof.
  intros Hnew Hlogging Hlogger.
  destruct (constructed _ _ _ _ _ _ _ Hnew)
    as (h1 & h2 & l & ps & c & co & text & doc & logging' & logger' & ui
        & Hall & _ & _ & _ & Hset & Happ & Ha & Hl & _ & _ & _
        & Hlogging' & Hlogger' & _ & Hchain).
  assert (logging' = logging) as ->
    by (eapply (read_prop_prepared _ _ _ _ _ _ _ _ "logging");
        [exact Hset|exact Happ|discriminate|exact Hlogging|exact Hlogging']).
  assert (logger' = logger) as ->.
  { assert ((configureLogger logging (State h2 inst)).2 = inr logger) as H2.
    { apply (configureLogger_frame _ h t); [|done].
      intros k x Hk Hx.
      destruct (validator_options_set_read _ _ _ _ _ _ _ _ Hset Hx)
        as (x' & Hx' & Heq).
      apply (application_obtained_read _ _ _ _ _ _ _ Happ).
      by rewrite Hx', Heq. }
    congruence. }
  rewrite (chain_before _ _ _ _ _ _ _ _ _ _ Hset Happ Ha Hl).
  eexists. split; [by rewrite Ha|].
  rewrite lookup_app_r by lia.
  by replace (length c + 5 - length c)%nat with 5%nat by lia.
Qed.

(** X12: options that are [undefined] or [null] make the constructor throw
    a [TypeError] at once, whatever the file; the store is as it was.  (The
    test for missing options on line 69 is not reached.) *)
Theorem construction_without_options path appOptions customs jt h :
  not_undefined appOptions = false →
  new_ExpressAppConfig path appOptions customs jt h = (h, inl TypeError).
Proof. intros Hnone. by destruct appOptions. Qed.

(** X13: validator options that are truthy and no object (the code is in
    strict mode, where a property of a primitive cannot be assigned) make
    the constructor throw a [TypeError] before it obtains an application:
    the store is as it was. *)
Theorem construction_with_primitive_validator
    path appOptions customs jt h validator :
  read_prop h appOptions "openApiValidator" = inr validator →
  truthy validator = true →
  object_at h validator = None →
  new_ExpressAppConfig path appOptions customs jt h = (h, inl TypeError).
Proof.
  intros Hv Htruthy Hnone.
  destruct (new_ExpressAppConfig path appOptions customs jt h) as [h' res] eqn:Hnew.
  apply new_ExpressAppConfig_run in Hnew as (st' & r & Hrun & -> & ->).
  apply constructor_run in Hrun
    as [(-> & -> & _)
       |(routing & limit & h1 & h2 & _ & _ & _ & _ & _ & Hset & _)];
    [done|exfalso].
  inversion Hset as [v' Hv' Hfalsy Hh1 Hvo|l o Ht Hv' Hl Hh1 Hvo].
  - destruct (truthy appOptions) eqn:Ht.
    + rewrite Hv in Hv'. injection Hv' as <-. congruence.
    + destruct appOptions; try done; simpl in Hv; injection Hv as <-; done.
  - rewrite Hv in Hv'. injection Hv' as ->. simpl in Hnone. congruence.
Qed.

(** The validator options that the options give are those of the
    instance, and the path has been written to them. *)
Lemma constructed_validator_given path appOptions customs jt h h' inst l :
  new_ExpressAppConfig path appOptions customs jt h = (h', inr inst) →
  read_prop h appOptions "openApiValidator" = inr (VRef l) →
  openApiValidatorOptions inst = VRef l ∧
  (collaborators_leave h appOptions (VRef l) "apiSpec" →
   read_prop h' (VRef l) "apiSpec" = inr (VStr path)).
Proof.
  intros Hnew Hv.
  apply new_ExpressAppConfig_run in Hnew as (st' & r & Hrun & -> & Hres).
  destruct r as [e|[]]; [done|]. injection Hres as ->.
  apply constructor_run in Hrun
    as [(? & _)|(routing & limit & h1 & h2 & Hro & _ & Hrouting & _ & _
                 & Hset & Happ & Hreg)];
    [done|].
  rewrite <- Hrouting in Hro.
  pose proof (validator_options_set_for _ _ _ _ _ _ Hset Hv) as Hvo.
  cbn in Hvo. split; [done|]. rewrite <- Hvo.
  by eapply prepared_apiSpec.
Qed.

(** X14: two instances made one after the other from options that name
    the same validator options share that object: both instances hold it,
    and each construction writes its definition path to it, so that after
    the second construction the [apiSpec] is the second path, also for the
    first instance (no collaborator being taken to write that
    [apiSpec]). *)
Theorem shared_validator_options
    path1 path2 appOptions customs1 customs2 jt1 jt2 h h1 h2 inst1 inst2 l :
  new_ExpressAppConfig path1 appOptions customs1 jt1 h = (h1, inr inst1) →
  new_ExpressAppConfig path2 appOptions customs2 jt2 h1 = (h2, inr inst2) →
  read_prop h appOptions "openApiValidator" = inr (VRef l) →
  read_prop h1 appOptions "openApiValidator" = inr (VRef l) →
  collaborators_leave h appOptions (VRef l) "apiSpec" →
  collaborators_leave h1 appOptions (VRef l) "apiSpec" →
  openApiValidatorOptions inst1 = VRef l ∧
  openApiValidatorOptions inst2 = VRef l ∧
  read_prop h1 (openApiValidatorOptions inst1) "apiSpec" = inr (VStr path1) ∧
  read_prop h2 (openApiValidatorOptions inst1) "apiSpec" = inr (VStr path2).
Proof.
  intros Hnew1 Hnew2 Hv Hv1 Hleave Hleave1.
  destruct (constructed_validator_given _ _ _ _ _ _ _ _ Hnew1 Hv) as (Hvo1 & Hp1).
  destruct (constructed_validator_given _ _ _ _ _ _ _ _ Hnew2 Hv1) as (Hvo2 & Hp2).
  rewrite Hvo1. auto.
Qed.

Lemma pipeline_length co limit logger jsonType doc ui vo (customs : list handler) routing :
  length (pipeline co limit logger jsonType doc ui vo customs routing)
  = (14 + length customs)%nat.
Proof.
  unfold pipeline. rewrite !length_app, length_map. simpl. lia.
Qed.

(** X15: two constructions one after the other with the same application
    in the options register the pipeline on it twice: its chain is what it
    was, then the middleware of the first construction, then the
    middleware of the second (each 14 and the custom ones). *)
Theorem second_construction_appends
    path1 path2 appOptions customs1 customs2 jt1 jt2 h h1 h2 inst1 inst2 given :
  new_ExpressAppConfig path1 appOptions customs1 jt1 h = (h1, inr inst1) →
  new_ExpressAppConfig path2 appOptions customs2 jt2 h1 = (h2, inr inst2) →
  read_prop h appOptions "app" = inr given →
  read_prop h1 appOptions "app" = inr given →
  truthy given = true →
  app inst1 = given ∧ app inst2 = given ∧
  ∃ before added1 added2,
    chain_of h given = Some before ∧
    chain_of h1 given = Some (before ++ added1) ∧
    chain_of h2 given = Some (before ++ added1 ++ added2) ∧
    length added1 = (14 + length (default [] customs1))%nat ∧
    length added2 = (14 + length (default [] customs2))%nat.
Proof.
  intros Hnew1 Hnew2 Hgiven Hgiven1 Htruthy.
  destruct (constructed_given_app _ _ _ _ _ _ _ _ Hnew1 Hgiven Htruthy)
    as (Ha1 & before & Hbefore).
  destruct (constructed_given_app _ _ _ _ _ _ _ _ Hnew2 Hgiven1 Htruthy)
    as (Ha2 & _).
  destruct (constructed_chain _ _ _ _ _ _ _ Hnew1)
    as (co1 & f1 & s1 & d1 & u1 & _ & _ & Hc1).
  destruct (constructed_chain _ _ _ _ _ _ _ Hnew2)
    as (co2 & f2 & s2 & d2 & u2 & _ & _ & Hc2).
  rewrite Ha1, Hbefore in Hc1. rewrite Ha2, Hc1 in Hc2. simpl in Hc1, Hc2.
  do 2 (split; [done|]).
  eexists before, _, _. split; [done|]. split; [exact Hc1|].
  split; [by rewrite app_assoc|].
  by rewrite !pipeline_length.
Qed.

End ExpressAppConfig.

Arguments Cors {document}.
Arguments BodyParserUrlencoded {document}.
Arguments BodyParserText {document}.
Arguments BodyParserJson {document}.
Arguments BodyParserRaw {document}.
Arguments Morgan {document}.
Arguments ExpressJson {document}.
Arguments ExpressUrlencoded {document}.
Arguments CookieParser {document}.
Arguments SwaggerUIStatic {document}.
Arguments OpenApiValidatorMiddleware {document}.
Arguments CheckParameters {document}.
Arguments Custom {document}.
Arguments SwaggerRouterInitialize {document}.
Arguments ErrorHandler {document}.
Arguments Object {document}.
Arguments State {document}.
Arguments props {document}.
Arguments stack {document}.
Arguments heap {document}.
Arguments this {document}.
Arguments read_prop {document}.
Arguments typeof {document}.
Arguments chain_of {document}.
Arguments object_at {document}.
Arguments call_skip {document}.
Arguments logs {document}.
Arguments configureLogger {document}.
Arguments errorHandler {document}.
Arguments getApp {document}.
Arguments new_ExpressAppConfig {document}.
Arguments skips_exactly_below {document}.
Arguments sends_status_field {document}.
Arguments chains_unchanged_on_error {document}.
Arguments write_props {document}.
Arguments leaves {document}.
Arguments collaborators_leave {document}.
Arguments returns {document}.
Arguments completing {document}.
Arguments example_ui {document}.
Arguments example_router {document}.
Arguments example_validator {document}.
Arguments validator_options_for {document}.

(** ** The example collaborators *)

Lemma write_props_empty {document} (h : gmap loc (object document)) :
  write_props h ∅ = h.
Proof.
  apply map_eq. intros l. rewrite lookup_write_props, lookup_empty.
  by destruct (h !! l).
Qed.

(** A collaborator that fills in defaults leaves alone every object but
    the one it is handed, and of that one every property that is not among
    the defaults. *)
Lemma completing_leaves {document} defaults options
    (v : value) (k : string) :
  defaults !! k = None ∨ options ≠ v →
  leaves (document := document) (completing defaults options) v k.
Proof.
  intros Hk h x Hread. unfold completing.
  destruct options as [| | | | |l]; cbn [written];
    try (by rewrite write_props_empty).
  destruct (h !! l) as [o|] eqn:Hl; cbn [written];
    [|by rewrite write_props_empty].
  destruct v as [| | | | |l']; try done. simpl in Hread |- *.
  rewrite lookup_write_props.
  destruct (decide (l = l')) as [<-|Hne].
  - rewrite Hl in Hread |- *. rewrite lookup_singleton_eq. simpl.
    destruct Hk as [Hk|Hk]; [|done]. by rewrite lookup_union_l.
  - rewrite lookup_singleton_ne by done. by destruct (h !! l').
Qed.

Lemma example_validator_leaves {document} options (v : value) (k : string) :
  (k ≠ "validateRequests" ∧ k ≠ "validateResponses") ∨ options ≠ v →
  leaves (document := document) (example_validator options) v k.
Proof.
  intros Hk h x Hread. unfold example_validator.
  destruct options as [| | | | |l]; cbn [written];
    try (by rewrite write_props_empty).
  destruct (h !! l) as [o|] eqn:Hl; cbn [written];
    [|by rewrite write_props_empty].
  destruct v as [| | | | |l']; try done. simpl in Hread |- *.
  rewrite lookup_write_props.
  destruct (h !! l') as [o'|] eqn:Hl'; [|done].
  assert (fresh (dom h) ≠ l') as Hfresh.
  { intros <-. by rewrite fresh_lookup in Hl'. }
  destruct (decide (l = l')) as [<-|Hne].
  - destruct Hk as [[Hk1 Hk2]|Hk]; [|done].
    rewrite lookup_insert_eq. simpl.
    rewrite lookup_insert_ne by done.
    rewrite lookup_union_l; [|by rewrite lookup_singleton_ne].
    rewrite Hl in Hl'. by injection Hl' as <-.
  - rewrite lookup_insert_ne by done. by rewrite lookup_singleton_ne.
Qed.

(** The example collaborators write the six properties that they fill in,
    and no other. *)
Lemma example_collaborators_leave {document}
    (h : gmap loc (object document)) appOptions (v : value) (k : string) :
  k ∉ [ "apiDocs"; "swaggerUi"; "validateRequests"; "validateResponses";
        "controllers"; "useStubs" ] →
  collaborators_leave example_ui example_validator example_router
    h appOptions v k.
Proof.
  rewrite !not_elem_of_cons. intros (? & ? & ? & ? & ? & ? & _).
  intros uiOptions validator routing _ _ _.
  split; [|split].
  - intros swaggerDoc. apply completing_leaves. left.
    by rewrite lookup_insert_ne, lookup_singleton_ne.
  - apply example_validator_leaves. by left.
  - apply completing_leaves. left.
    by rewrite lookup_insert_ne, lookup_singleton_ne.
Qed.

(** And they write to the options they are handed only. *)
Lemma example_collaborators_leave_object {document}
    (h : gmap loc (object document)) appOptions (v : value) (k : string) :
  read_prop h appOptions "swaggerUI" ≠ inr v →
  (∀ validator,
     read_prop h appOptions "openApiValidator" = inr validator →
     validator_options_for h validator ≠ v) →
  read_prop h appOptions "routing" ≠ inr v →
  collaborators_leave example_ui example_validator example_router
    h appOptions v k.
Proof.
  intros Hui Hvalidator Hrouting uiOptions validator routing Hu Hv Hr.
  split; [|split].
  - intros swaggerDoc. apply completing_leaves. right. congruence.
  - apply example_validator_leaves. right. by apply Hvalidator.
  - apply completing_leaves. right. congruence.
Qed.

(** A property name that the example collaborators do not fill in. *)
Ltac not_filled_in :=
  rewrite !not_elem_of_cons;
  repeat (split; [by intros [=]|]); apply not_elem_of_nil.

(** ** The theorems at work in the example world *)

(** A successful construction in the example store registers the
    pipeline after the middleware that the caller's application had. *)
Lemma registration_order_witness :
  let run :=
    new_ExpressAppConfig example_fs example_load example_ui example_validator
      example_router "api.yaml" (VRef 1)
      (Some [Handler 1; Handler 2]) None (example_store string) in
  let inst :=
    {| app := VRef 3; routingOptions := VStr "controllers";
       parserLimit := VStr "100kb"; definitionPath := VStr "api.yaml";
       openApiValidatorOptions := VRef 2 |} in
  run.2 = inr inst ∧
  ∃ chain corsOptions format skip swaggerDoc uiOptions,
    chain_of run.1 (VRef 3) = Some chain ∧
    chain =
      [ CookieParser ] ++
      [ Cors corsOptions;
        BodyParserUrlencoded (VStr "100kb");
        BodyParserText (VStr "100kb");
        BodyParserJson (VStr "100kb");
        BodyParserRaw "application/pdf" (VStr "100kb");
        Morgan format skip;
        ExpressJson "application/json";
        ExpressUrlencoded false;
        CookieParser;
        SwaggerUIStatic swaggerDoc uiOptions;
        OpenApiValidatorMiddleware (VRef 2);
        CheckParameters ] ++
      map Custom [Handler 1; Handler 2] ++
      [ SwaggerRouterInitialize (VStr "controllers"); ErrorHandler ] ∧
    chain !! 11%nat = Some (OpenApiValidatorMiddleware (VRef 2)) ∧
    chain !! 12%nat = Some CheckParameters ∧
    (∀ i m, [Handler 1; Handler 2] !! i = Some m →
            chain !! (1 + 12 + i)%nat = Some (Custom m)) ∧
    chain !! 15%nat = Some (SwaggerRouterInitialize (VStr "controllers")).
Proof.
  intros run inst.
  assert (run = (run.1, inr inst)) as Hrun by (vm_compute; reflexivity).
  split; [vm_compute; reflexivity|].
  exact (registration_order string example_fs example_load example_ui example_validator
      example_router "api.yaml" (VRef 1)
           (Some [Handler 1; Handler 2]) None (example_store string)
           run.1 inst Hrun).
Defined.

(** The chain that this construction leaves on the caller's
    application. *)
Example construction_example :
  ∃ h',
    new_ExpressAppConfig example_fs example_load example_ui example_validator
      example_router "api.yaml" (VRef 1)
      (Some [Handler 1; Handler 2]) None (example_store string) =
      (h', inr {| app := VRef 3; routingOptions := VStr "controllers";
                  parserLimit := VStr "100kb";
                  definitionPath := VStr "api.yaml";
                  openApiValidatorOptions := VRef 2 |}) ∧
    chain_of h' (VRef 3) =
      Some [ CookieParser;
             Cors VUndefined;
             BodyParserUrlencoded (VStr "100kb");
             BodyParserText (VStr "100kb");
             BodyParserJson (VStr "100kb");
             BodyParserRaw "application/pdf" (VStr "100kb");
             Morgan (VStr "combined") (Some (SkipBelowErrorLimit (VRef 4)));
             ExpressJson "application/json";
             ExpressUrlencoded false;
             CookieParser;
             SwaggerUIStatic "openapi: 3.0.0" VUndefined;
             OpenApiValidatorMiddleware (VRef 2);
             CheckParameters;
             Custom (Handler 1); Custom (Handler 2);
             SwaggerRouterInitialize (VStr "controllers");
             ErrorHandler ].
Proof. eexists. split; vm_compute; reflexivity. Qed.

(** An [errorLimit] of 400 skips the responses below 400. *)
Lemma skip_below_integer_threshold_witness :
  read_prop (example_store string) (VRef 4) "errorLimit" =
    inr (VNum (number_of_Z 400)) ∧
  reads_as_threshold (VNum (number_of_Z 400)) 400 ∧
  ∃ format,
    configureLogger (VRef 4) (State (example_store string) uninitialized) =
      (State (example_store string) uninitialized,
       inr (Morgan format (Some (SkipBelowErrorLimit (VRef 4))))) ∧
    ∀ res,
      call_skip (example_store string) (SkipBelowErrorLimit (VRef 4)) res =
        inr (statusCode res <? 400) ∧
      logs (example_store string)
        (Morgan format (Some (SkipBelowErrorLimit (VRef 4)))) res =
        inr (400 <=? statusCode res).
Proof.
  assert (reads_as_threshold (VNum (number_of_Z 400)) 400) as HT
    by (split; [reflexivity | lia]).
  split; [reflexivity|]. split; [exact HT|].
  exact (skip_below_integer_threshold string
           (State (example_store string) uninitialized) (VRef 4)
           (VNum (number_of_Z 400)) 400 eq_refl HT).
Defined.

(** An [errorLimit] of ["none"] installs a skip function that never
    skips. *)
Lemma errorLimit_without_integer_witness :
  read_prop (example_store string) (VRef 8) "errorLimit" = inr (VStr "none") ∧
  ∃ format skip,
    configureLogger (VRef 8) (State (example_store string) uninitialized) =
      (State (example_store string) uninitialized, inr (Morgan format skip)) ∧
    (∀ s, VStr "none" = VStr s → parseInt_string s = NaN →
       skip = Some (SkipBelowErrorLimit (VRef 8)) ∧
       ∀ res,
         call_skip (example_store string) (SkipBelowErrorLimit (VRef 8)) res =
           inr false ∧
         logs (example_store string) (Morgan format skip) res = inr true) ∧
    (typeof (example_store string) (VStr "none") ≠ "string" →
     typeof (example_store string) (VStr "none") ≠ "number" →
     skip = None).
Proof.
  split; [reflexivity|].
  exact (errorLimit_without_integer string
           (State (example_store string) uninitialized) (VRef 8)
           (VStr "none") eq_refl).
Defined.

(** A failure with status 404 is answered with 404. *)
Lemma errorHandler_sends_witness :
  read_prop (example_store string) (VRef 5) "status" =
    inr (VNum (number_of_Z 404)) ∧
  read_prop (example_store string) (VRef 5) "message" = inr (VStr "not found") ∧
  read_prop (example_store string) (VRef 5) "errors" = inr VUndefined ∧
  errorHandler (VRef 5) (State (example_store string) uninitialized) =
    (State (example_store string) uninitialized,
     inr {| sent_status := VNum (number_of_Z 404);
            sent_json := [("message", VStr "not found");
                          ("errors", VUndefined)] |}).
Proof.
  do 3 (split; [reflexivity|]).
  exact (errorHandler_sends string
           (State (example_store string) uninitialized) (VRef 5)
           (VNum (number_of_Z 404)) (VStr "not found") VUndefined
           eq_refl eq_refl eq_refl).
Defined.

(** A missing definition file: the constructor throws the I/O error, and
    the caller's application has the CORS middleware added. *)
Lemma construction_fails_on_bad_file_witness :
  example_fs "missing.yaml" = None ∧
  ∃ h',
    new_ExpressAppConfig example_fs example_load example_ui example_validator
      example_router "missing.yaml" (VRef 1)
      None None (example_store string) = (h', inl IOError) ∧
    ∀ c, chain_of (example_store string) (VRef 3) = Some c →
         chain_of h' (VRef 3) = Some (c ++ [Cors VUndefined]).
Proof.
  split; [reflexivity|].
  apply (construction_fails_on_bad_file string example_fs example_load example_ui example_validator
      example_router "missing.yaml" (VRef 1) None None (example_store string)
           (VRef 2) (VRef 3) VUndefined).
  - reflexivity.
  - reflexivity.
  - reflexivity.
  - right. eexists. reflexivity.
  - right. eexists. reflexivity.
  - left. reflexivity.
Defined.

(** The validator options of the example construction are the caller's
    object 2; the example validator has completed them, and their [apiSpec]
    is the definition path. *)
Lemma validator_options_used_witness :
  let run :=
    new_ExpressAppConfig example_fs example_load example_ui example_validator
      example_router "api.yaml" (VRef 1) None None (example_store string) in
  let inst :=
    {| app := VRef 3; routingOptions := VStr "controllers";
       parserLimit := VStr "100kb"; definitionPath := VStr "api.yaml";
       openApiValidatorOptions := VRef 2 |} in
  run.2 = inr inst ∧
  read_prop (example_store string) (VRef 1) "openApiValidator" = inr (VRef 2) ∧
  read_prop run.1 (VRef 2) "validateResponses" = inr (VBool false) ∧
  (truthy (VRef 2) = false →
     ∃ l, openApiValidatorOptions inst = VRef l ∧
          example_store string !! l = None) ∧
  (truthy (VRef 2) = true → openApiValidatorOptions inst = VRef 2) ∧
  read_prop run.1 (openApiValidatorOptions inst) "apiSpec" =
    inr (VStr "api.yaml") ∧
  ∃ chain,
    chain_of run.1 (app inst) = Some chain ∧
    OpenApiValidatorMiddleware (openApiValidatorOptions inst) ∈ chain.
Proof.
  intros run inst.
  assert (run = (run.1, inr inst)) as Hrun by (vm_compute; reflexivity).
  split; [vm_compute; reflexivity|]. split; [reflexivity|].
  split; [vm_compute; reflexivity|].
  apply (validator_options_used string example_fs example_load example_ui
           example_validator example_router "api.yaml" (VRef 1) None None
           (example_store string) run.1 inst (VRef 2) Hrun eq_refl).
  apply example_collaborators_leave. not_filled_in.
Defined.

(** The example options carry no [parserLimit]. *)
Lemma parserLimit_default_witness :
  ∃ h' inst,
    new_ExpressAppConfig example_fs example_load example_ui example_validator
      example_router "api.yaml" (VRef 1)
      None None (example_store string) = (h', inr inst) ∧
    read_prop (example_store string) (VRef 1) "parserLimit" = inr VUndefined ∧
    parserLimit inst = VStr "100kb" ∧
    ∃ before corsOptions rest,
      chain_of h' (app inst) =
        Some (before ++
              [ Cors corsOptions;
                BodyParserUrlencoded (VStr "100kb");
                BodyParserText (VStr "100kb");
                BodyParserJson (VStr "100kb");
                BodyParserRaw "application/pdf" (VStr "100kb") ] ++ rest).
Proof.
  eexists _, _. split; [vm_compute; reflexivity|]. split; [reflexivity|].
  apply (parserLimit_default string example_fs example_load example_ui example_validator
      example_router "api.yaml"
           (VRef 1) None None (example_store string)).
  - vm_compute. reflexivity.
  - reflexivity.
Defined.

(** [getApp] on the example instance. *)
Lemma getApp_idempotent_witness :
  ∃ h' inst,
    new_ExpressAppConfig example_fs example_load example_ui example_validator
      example_router "api.yaml" (VRef 9)
      None None (example_store string) = (h', inr inst) ∧
    (∀ store : gmap loc (object string),
       getApp (State store inst) = (State store inst, inr (app inst)) ∧
       (getApp ;; getApp) (State store inst) = (State store inst, inr (app inst))) ∧
    not_undefined (app inst) = true ∧
    ∃ chain, chain_of h' (app inst) = Some chain.
Proof.
  eexists _, _. split; [vm_compute; reflexivity|].
  apply (getApp_idempotent string example_fs example_load example_ui example_validator
      example_router "api.yaml"
           (VRef 9) None None (example_store string)).
  vm_compute. reflexivity.
Defined.


(** ** Where the claims as stated fail *)

(** C2 as stated fails for the threshold 400.5: a response with status
    400 is below the threshold, yet [parseInt] makes the limit 400 and the
    response is not skipped. *)
Lemma skip_fractional_threshold_counterexample :
  read_prop (example_store string) (VRef 7) "errorLimit" =
    inr (VNum (Dec 4005 (-1))) ∧
  number_lt (number_of_Z 400) (Dec 4005 (-1)) = true ∧
  call_skip (example_store string) (SkipBelowErrorLimit (VRef 7))
    {| statusCode := 400 |} = inr false ∧
  ¬ skips_exactly_below (example_store string) (VRef 7) (Dec 4005 (-1)).
Proof.
  split; [reflexivity|]. split; [reflexivity|]. split; [reflexivity|].
  intros Hclaim. specialize (Hclaim {| statusCode := 400 |}).
  vm_compute in Hclaim. discriminate.
Qed.

(** C3 as stated fails for a failure whose status is 0: the status field
    is there, yet the answer has status 500. *)
Lemma errorHandler_status_zero_counterexample :
  read_prop (example_store string) (VRef 6) "status" =
    inr (VNum (number_of_Z 0)) ∧
  (errorHandler (VRef 6) (State (example_store string) uninitialized)).2 =
    inr {| sent_status := VNum (number_of_Z 500);
           sent_json := [("message", VStr "offline"); ("errors", VUndefined)] |} ∧
  ¬ sends_status_field (State (example_store string) uninitialized) (VRef 6).
Proof.
  split; [reflexivity|]. split; [reflexivity|].
  intros Hclaim.
  specialize (Hclaim (VNum (number_of_Z 0)) _ eq_refl ltac:(discriminate) eq_refl).
  discriminate.
Qed.

(** C4 as stated fails when the caller gives the application: the file is
    missing, the constructor throws, and the chain of the caller's
    application has grown by the CORS middleware. *)
Lemma construction_failure_counterexample :
  ∃ h',
    new_ExpressAppConfig example_fs example_load example_ui example_validator
      example_router "missing.yaml" (VRef 1)
      None None (example_store string) = (h', inl IOError) ∧
    chain_of (example_store string) (VRef 3) = Some [CookieParser] ∧
    chain_of h' (VRef 3) = Some [CookieParser; Cors VUndefined] ∧
    ¬ chains_unchanged_on_error example_fs example_load example_ui example_validator
      example_router "missing.yaml" (VRef 1)
        None None (example_store string).
Proof.
  eexists. split; [vm_compute; reflexivity|].
  split; [reflexivity|]. split; [vm_compute; reflexivity|].
  intros Hclaim.
  specialize (Hclaim _ IOError (VRef 3) [CookieParser]
                ltac:(vm_compute; reflexivity) eq_refl).
  vm_compute in Hclaim. discriminate.
Qed.

(** ** The further theorems at work in the example world *)

Lemma logger_format_witness :
  read_prop (example_store string) (VRef 4) "format" = inr (VStr "combined") ∧
  ∃ skip,
    configureLogger (VRef 4) (State (example_store string) uninitialized) =
    (State (example_store string) uninitialized,
     inr (Morgan (VStr "combined") skip)).
Proof.
  split; [reflexivity|].
  exact (logger_format string (State (example_store string) uninitialized)
           (VRef 4) (VStr "combined") eq_refl).
Defined.

Lemma logger_options_not_an_object_witness :
  (∀ l, VStr "combined" ≠ VRef l) ∧
  configureLogger (VStr "combined") (State (example_store string) uninitialized) =
    (State (example_store string) uninitialized, inr (Morgan (VStr "dev") None)).
Proof.
  assert (∀ l, VStr "combined" ≠ VRef l) as Hprim by (intros l; discriminate).
  split; [exact Hprim|].
  exact (logger_options_not_an_object string
           (State (example_store string) uninitialized) (VStr "combined") Hprim).
Defined.

(** The logger of the options 4, and a later store in which the caller
    has raised their [errorLimit] to 500. *)
Lemma skip_follows_options_witness :
  let st := State (example_store string) uninitialized in
  let later :=
    <[4%positive := Object {[ "errorLimit" := VNum (number_of_Z 500) ]} None]>
      (example_store string) in
  configureLogger (VRef 4) st =
    (st, inr (Morgan (VStr "combined") (Some (SkipBelowErrorLimit (VRef 4))))) ∧
  ∀ res,
    (∀ errorLimit T,
       read_prop later (VRef 4) "errorLimit" = inr errorLimit →
       reads_as_threshold errorLimit T →
       call_skip later (SkipBelowErrorLimit (VRef 4)) res =
         inr (statusCode res <? T)) ∧
    (read_prop later (VRef 4) "errorLimit" = inr VUndefined →
     call_skip later (SkipBelowErrorLimit (VRef 4)) res = inr false).
Proof.
  intros st later. split; [reflexivity|].
  exact (skip_follows_options string st st (VRef 4) (VStr "combined")
           (SkipBelowErrorLimit (VRef 4)) eq_refl later).
Defined.

Lemma errorHandler_primitive_witness :
  not_undefined (VStr "oops") = true ∧
  (∀ l, VStr "oops" ≠ VRef l) ∧
  errorHandler (VStr "oops") (State (example_store string) uninitialized) =
    (State (example_store string) uninitialized,
     inr {| sent_status := VNum (number_of_Z 500);
            sent_json := [("message", VUndefined); ("errors", VUndefined)] |}).
Proof.
  assert (∀ l, VStr "oops" ≠ VRef l) as Hprim by (intros l; discriminate).
  split; [reflexivity|]. split; [exact Hprim|].
  exact (errorHandler_primitive string
           (State (example_store string) uninitialized) (VStr "oops")
           eq_refl Hprim).
Defined.


Lemma application_of_instance_witness :
  let run :=
    new_ExpressAppConfig example_fs example_load example_ui example_validator
      example_router "api.yaml" (VRef 1)
      None None (example_store string) in
  let inst :=
    {| app := VRef 3; routingOptions := VStr "controllers";
       parserLimit := VStr "100kb"; definitionPath := VStr "api.yaml";
       openApiValidatorOptions := VRef 2 |} in
  run.2 = inr inst ∧
  read_prop (example_store string) (VRef 1) "app" = inr (VRef 3) ∧
  (truthy (VRef 3) = true →
     app inst = VRef 3 ∧
     ∃ chain, chain_of (example_store string) (VRef 3) = Some chain) ∧
  (truthy (VRef 3) = false →
     ∃ l, app inst = VRef l ∧ example_store string !! l = None).
Proof.
  intros run inst.
  assert (run = (run.1, inr inst)) as Hrun by (vm_compute; reflexivity).
  split; [vm_compute; reflexivity|]. split; [reflexivity|].
  exact (application_of_instance string example_fs example_load example_ui example_validator
      example_router "api.yaml"
           (VRef 1) None None (example_store string) run.1 inst (VRef 3)
           Hrun eq_refl).
Defined.

(** A construction with the empty options 9 makes its own application and
    leaves the chain of the application 3 alone. *)
Lemma other_chains_kept_witness :
  let run :=
    new_ExpressAppConfig example_fs example_load example_ui example_validator
      example_router "api.yaml" (VRef 9)
      None None (example_store string) in
  chain_of (example_store string) (VRef 3) = Some [CookieParser] ∧
  read_prop (example_store string) (VRef 9) "app" ≠ inr (VRef 3) ∧
  chain_of run.1 (VRef 3) = Some [CookieParser].
Proof.
  intros run.
  assert (read_prop (example_store string) (VRef 9) "app" ≠ inr (VRef 3))
    as Hother by (vm_compute; discriminate).
  split; [reflexivity|]. split; [exact Hother|].
  exact (other_chains_kept string example_fs example_load example_ui example_validator
      example_router "api.yaml" (VRef 9)
           None None (example_store string) run.1 run.2 (VRef 3) [CookieParser]
           (surjective_pairing run) eq_refl Hother).
Defined.


(** The options 10 carry the parser limit ["5mb"]. *)
Lemma parserLimit_used_witness :
  let run :=
    new_ExpressAppConfig example_fs example_load example_ui example_validator
      example_router "api.yaml" (VRef 10)
      None None (example_store_more string) in
  let inst :=
    {| app := VRef 3; routingOptions := VUndefined;
       parserLimit := VStr "5mb"; definitionPath := VStr "api.yaml";
       openApiValidatorOptions := VRef 12 |} in
  run.2 = inr inst ∧
  read_prop (example_store_more string) (VRef 10) "parserLimit" = inr (VStr "5mb") ∧
  parserLimit inst = VStr "5mb" ∧
  ∃ before corsOptions rest,
    chain_of run.1 (app inst) =
      Some (before ++
            [ Cors corsOptions;
              BodyParserUrlencoded (VStr "5mb"); BodyParserText (VStr "5mb");
              BodyParserJson (VStr "5mb");
              BodyParserRaw "application/pdf" (VStr "5mb") ] ++
            rest).
Proof.
  intros run inst.
  assert (run = (run.1, inr inst)) as Hrun by (vm_compute; reflexivity).
  split; [vm_compute; reflexivity|]. split; [reflexivity|].
  exact (parserLimit_used string example_fs example_load example_ui example_validator
      example_router "api.yaml" (VRef 10)
           None None (example_store_more string) run.1 inst (VStr "5mb")
           Hrun eq_refl).
Defined.

Lemma collaborators_configured_witness :
  let run :=
    new_ExpressAppConfig example_fs example_load example_ui example_validator
      example_router "api.yaml" (VRef 1)
      None None (example_store string) in
  let inst :=
    {| app := VRef 3; routingOptions := VStr "controllers";
       parserLimit := VStr "100kb"; definitionPath := VStr "api.yaml";
       openApiValidatorOptions := VRef 2 |} in
  run.2 = inr inst ∧
  ∃ text swaggerDoc uiOptions chain,
    example_fs "api.yaml" = Some text ∧
    example_load text = Some swaggerDoc ∧
    read_prop (example_store string) (VRef 1) "swaggerUI" = inr uiOptions ∧
    read_prop (example_store string) (VRef 1) "routing" = inr (VStr "controllers") ∧
    definitionPath inst = VStr "api.yaml" ∧
    chain_of run.1 (VRef 3) = Some chain ∧
    SwaggerUIStatic swaggerDoc uiOptions ∈ chain ∧
    SwaggerRouterInitialize (VStr "controllers") ∈ chain.
Proof.
  intros run inst.
  assert (run = (run.1, inr inst)) as Hrun by (vm_compute; reflexivity).
  split; [vm_compute; reflexivity|].
  exact (collaborators_configured string example_fs example_load example_ui example_validator
      example_router "api.yaml"
           (VRef 1) None None (example_store string) run.1 inst Hrun).
Defined.

Lemma logger_registered_witness :
  let run :=
    new_ExpressAppConfig example_fs example_load example_ui example_validator
      example_router "api.yaml" (VRef 1)
      None None (example_store string) in
  let inst :=
    {| app := VRef 3; routingOptions := VStr "controllers";
       parserLimit := VStr "100kb"; definitionPath := VStr "api.yaml";
       openApiValidatorOptions := VRef 2 |} in
  let logger := Morgan (VStr "combined") (Some (SkipBelowErrorLimit (VRef 4))) in
  run.2 = inr inst ∧
  read_prop (example_store string) (VRef 1) "logging" = inr (VRef 4) ∧
  (configureLogger (VRef 4) (State (example_store string) uninitialized)).2 =
    inr logger ∧
  ∃ chain,
    chain_of run.1 (VRef 3) = Some chain ∧
    chain !! (1 + 5)%nat = Some logger.
Proof.
  intros run inst logger.
  assert (run = (run.1, inr inst)) as Hrun by (vm_compute; reflexivity).
  split; [vm_compute; reflexivity|]. do 2 (split; [reflexivity|]).
  exact (logger_registered string example_fs example_load example_ui example_validator
      example_router "api.yaml" (VRef 1)
           None None (example_store string) run.1 inst (VRef 4) logger
           uninitialized Hrun eq_refl eq_refl).
Defined.

Lemma construction_without_options_witness :
  not_undefined VUndefined = false ∧
  new_ExpressAppConfig example_fs example_load example_ui example_validator
      example_router "api.yaml" VUndefined
    None None (example_store string) = (example_store string, inl TypeError).
Proof.
  split; [reflexivity|].
  exact (construction_without_options string example_fs example_load example_ui example_validator
      example_router "api.yaml"
           VUndefined None None (example_store string) eq_refl).
Defined.

(** The options 11 have [true] for validator options. *)
Lemma construction_with_primitive_validator_witness :
  read_prop (example_store_more string) (VRef 11) "openApiValidator" =
    inr (VBool true) ∧
  new_ExpressAppConfig example_fs example_load example_ui example_validator
      example_router "api.yaml" (VRef 11)
    None None (example_store_more string) =
    (example_store_more string, inl TypeError).
Proof.
  split; [reflexivity|].
  exact (construction_with_primitive_validator string example_fs example_load example_ui example_validator
      example_router "api.yaml" (VRef 11) None None (example_store_more string)
           (VBool true) eq_refl eq_refl eq_refl).
Defined.

(** Two instances from the options 1, for two definition files. *)
Lemma shared_validator_options_witness :
  let run1 :=
    new_ExpressAppConfig example_fs_versions example_load example_ui
      example_validator example_router "v1.yaml" (VRef 1)
      None None (example_store string) in
  let run2 :=
    new_ExpressAppConfig example_fs_versions example_load example_ui
      example_validator example_router "v2.yaml" (VRef 1)
      None None run1.1 in
  let inst1 :=
    {| app := VRef 3; routingOptions := VStr "controllers";
       parserLimit := VStr "100kb"; definitionPath := VStr "v1.yaml";
       openApiValidatorOptions := VRef 2 |} in
  let inst2 :=
    {| app := VRef 3; routingOptions := VStr "controllers";
       parserLimit := VStr "100kb"; definitionPath := VStr "v2.yaml";
       openApiValidatorOptions := VRef 2 |} in
  run1.2 = inr inst1 ∧ run2.2 = inr inst2 ∧
  read_prop (example_store string) (VRef 1) "openApiValidator" = inr (VRef 2) ∧
  read_prop run1.1 (VRef 1) "openApiValidator" = inr (VRef 2) ∧
  openApiValidatorOptions inst1 = VRef 2 ∧
  openApiValidatorOptions inst2 = VRef 2 ∧
  read_prop run1.1 (VRef 2) "apiSpec" = inr (VStr "v1.yaml") ∧
  read_prop run2.1 (VRef 2) "apiSpec" = inr (VStr "v2.yaml").
Proof.
  intros run1 run2 inst1 inst2.
  assert (run1 = (run1.1, inr inst1)) as Hrun1 by (vm_compute; reflexivity).
  assert (run2 = (run2.1, inr inst2)) as Hrun2 by (vm_compute; reflexivity).
  assert (read_prop run1.1 (VRef 1) "openApiValidator" = inr (VRef 2))
    as Hv1 by (vm_compute; reflexivity).
  split; [vm_compute; reflexivity|]. split; [vm_compute; reflexivity|].
  split; [reflexivity|]. split; [exact Hv1|].
  apply (shared_validator_options string example_fs_versions example_load
           example_ui example_validator example_router
           "v1.yaml" "v2.yaml" (VRef 1) None None None None
           (example_store string) run1.1 run2.1 inst1 inst2 2%positive
           Hrun1 Hrun2 eq_refl Hv1).
  - apply example_collaborators_leave. not_filled_in.
  - apply example_collaborators_leave. not_filled_in.
Defined.

Lemma second_construction_appends_witness :
  let run1 :=
    new_ExpressAppConfig example_fs_versions example_load example_ui example_validator
      example_router "v1.yaml" (VRef 1)
      (Some [Handler 1]) None (example_store string) in
  let run2 :=
    new_ExpressAppConfig example_fs_versions example_load example_ui example_validator
      example_router "v2.yaml" (VRef 1)
      None None run1.1 in
  let inst1 :=
    {| app := VRef 3; routingOptions := VStr "controllers";
       parserLimit := VStr "100kb"; definitionPath := VStr "v1.yaml";
       openApiValidatorOptions := VRef 2 |} in
  let inst2 :=
    {| app := VRef 3; routingOptions := VStr "controllers";
       parserLimit := VStr "100kb"; definitionPath := VStr "v2.yaml";
       openApiValidatorOptions := VRef 2 |} in
  run1.2 = inr inst1 ∧ run2.2 = inr inst2 ∧
  read_prop (example_store string) (VRef 1) "app" = inr (VRef 3) ∧
  read_prop run1.1 (VRef 1) "app" = inr (VRef 3) ∧
  app inst1 = VRef 3 ∧ app inst2 = VRef 3 ∧
  ∃ before added1 added2,
    chain_of (example_store string) (VRef 3) = Some before ∧
    chain_of run1.1 (VRef 3) = Some (before ++ added1) ∧
    chain_of run2.1 (VRef 3) = Some (before ++ added1 ++ added2) ∧
    length added1 = 15%nat ∧
    length added2 = 14%nat.
Proof.
  intros run1 run2 inst1 inst2.
  assert (run1 = (run1.1, inr inst1)) as Hrun1 by (vm_compute; reflexivity).
  assert (run2 = (run2.1, inr inst2)) as Hrun2 by (vm_compute; reflexivity).
  assert (read_prop run1.1 (VRef 1) "app" = inr (VRef 3))
    as Hgiven1 by (vm_compute; reflexivity).
  split; [vm_compute; reflexivity|]. split; [vm_compute; reflexivity|].
  split; [reflexivity|]. split; [exact Hgiven1|].
  exact (second_construction_appends string example_fs_versions example_load
           example_ui example_validator example_router
           "v1.yaml" "v2.yaml" (VRef 1) (Some [Handler 1]) None None None
           (example_store string) run1.1 run2.1 inst1 inst2 (VRef 3)
           Hrun1 Hrun2 eq_refl Hgiven1 eq_refl).
Defined.

